(** * PageMover: moving application-grid pages

    A shallow embedding of [utils/pageMover.js] (class [PageMover]) and of
    the parts of the host it talks to: the settings store behind
    [PageManager.pages], the [AppDisplay] signal table, the GLib idle queue,
    the grid and the logger.  Each method of the class is a computation in a
    small state-and-exception monad over the pair (object fields, host
    state); the behaviour of the host during a call is an explicit argument. *)

From stdpp Require Import base list strings relations.
From Stdlib Require Import ZArith Lia.

Local Open Scope Z_scope.

(** ** Data model *)

(** The value of [properties.position]: a plain JS number as produced by
    unpacking the store, a [GLib.Variant] of type "i", or anything else
    (missing, a string, ...). *)
Inductive position_value :=
  | PosNumber (n : Z)
  | PosVariant (n : Z)
  | PosOther (tag : string).

(** The value stored under an application id.  [PropsNull] stands for
    [null]/[undefined], on which reading [.position] raises a TypeError;
    an object has its [position] field and any further fields. *)
Inductive properties :=
  | PropsNull
  | PropsObject (position : position_value) (rest : list (string * position_value)).

(** A page record is a JS object from application id to properties, kept in
    key order; [PageUndefined] is the [undefined] that [splice(...)[0]]
    yields when nothing was removed. *)
Inductive page :=
  | PageUndefined
  | PageObject (entries : list (string * properties)).

Inductive exn :=
  | TypeError
  | HostError.

(** ** Array.prototype.splice *)

(** [splice l start deleteCount items] follows the ECMAScript algorithm on
    integer arguments: a negative [start] counts from the end, [start] and
    [deleteCount] are clamped to the array.  It returns the removed elements
    and the array as it is afterwards. *)
Definition splice {A} (l : list A) (start deleteCount : Z) (items : list A)
  : list A * list A :=
  let len := Z.of_nat (length l) in
  let actualStart :=
    if start <? 0 then Z.max (len + start) 0 else Z.min start len in
  let actualDeleteCount := Z.min (Z.max deleteCount 0) (len - actualStart) in
  let a := Z.to_nat actualStart in
  let d := Z.to_nat actualDeleteCount in
  (take d (drop a l), take a l ++ items ++ drop (a + d) l).

(** [removed[0]]: the first removed element, [undefined] if there is none. *)
Definition first_or_undefined (removed : list page) : page :=
  match removed with
  | [] => PageUndefined
  | p :: _ => p
  end.

(** Lines 130-131 of [_executeSingleMove]:
    [pageToMove = pagesJS.splice(currentPageIndex, 1)[0];
     pagesJS.splice(newPageIndex, 0, pageToMove)]. *)
Definition splice_move (currentPageIndex newPageIndex : Z) (pagesJS : list page)
  : list page :=
  let '(removed, pagesJS1) := splice pagesJS currentPageIndex 1 [] in
  let pageToMove := first_or_undefined removed in
  snd (splice pagesJS1 newPageIndex 0 [pageToMove]).

(** ** _normalizePages *)

(** The body of the [for ... in] loop for one application id: read
    [properties.position] (TypeError on [null]/[undefined]) and replace a
    number by [new GLib.Variant("i", n)], which is taken to succeed on the
    integer positions the store holds. *)
Definition normalize_properties (p : properties) : exn + properties :=
  match p with
  | PropsNull => inl TypeError
  | PropsObject (PosNumber n) rest => inr (PropsObject (PosVariant n) rest)
  | PropsObject _ _ => inr p
  end.

Fixpoint normalize_entries (es : list (string * properties))
  : exn + list (string * properties) :=
  match es with
  | [] => inr []
  | (appId, p) :: es' =>
      match normalize_properties p with
      | inl e => inl e
      | inr p' =>
          match normalize_entries es' with
          | inl e => inl e
          | inr es'' => inr ((appId, p') :: es'')
          end
      end
  end.

(** One iteration of [pages.forEach]; [for ... in] over [undefined] runs no
    iteration. *)
Definition normalize_page (pageData : page) : exn + page :=
  match pageData with
  | PageUndefined => inr PageUndefined
  | PageObject es =>
      match normalize_entries es with
      | inl e => inl e
      | inr es' => inr (PageObject es')
      end
  end.

Fixpoint _normalizePages (pages : list page) : exn + list page :=
  match pages with
  | [] => inr []
  | pageData :: pages' =>
      match normalize_page pageData with
      | inl e => inl e
      | inr pageData' =>
          match _normalizePages pages' with
          | inl e => inl e
          | inr pages'' => inr (pageData' :: pages'')
          end
      end
  end.

(** ** The object and its host *)

(** The fields of a [PageMover].  [_appDisplay] records whether the handle
    is truthy; [null] is [None]. *)
Record PageMover := mkPageMover {
  _appDisplay : bool;
  _isMoving : bool;
  _targetPageIndex : option Z;
  _rearrangedSignalId : option Z
}.

Inductive log_level := Debug | Warn | Error.

Inductive message :=
  | MoveInProgress
  | MoveRequested (currentPageIndex newPageIndex : Z)
  | StateAlreadyCleared
  | ViewLoadedReceived (target : Z)
  | StateChangedBeforeIdle
  | IdleNavigating (target : Z)
  | IdleNavigationError (e : exn)
  | IdleCleaningUp
  | SaveSuccessful
  | SaveFailed (e : exn).

(** What the object can observe and change outside itself.  [handlers]
    lists, in connection order, the ids of this object's 'view-loaded'
    callbacks connected on the AppDisplay; [idle_sources] counts its queued
    idle callbacks; [navigations] and [logged] have the latest call first. *)
Record Shell := mkShell {
  pages : list page;
  currentPage : Z;
  nPages : Z;
  handlers : list Z;
  next_handler_id : Z;
  idle_sources : nat;
  redisplays : nat;
  navigations : list (Z * bool);
  logged : list (log_level * message)
}.

Inductive getter_behaviour := GetterThrows | GetterNotArray | GetterArray.

Inductive redisplay_behaviour :=
  | RedisplayThrows
  | RedisplayDeferred
  | RedisplayEmits.

(** How the host behaves during one call into the object: which of its
    methods raise, and whether [_redisplay()] emits 'view-loaded' before it
    returns or leaves that to a later turn of the main loop. *)
Record Behaviour := mkBehaviour {
  connect_throws : bool;
  disconnect_throws : bool;
  pages_getter : getter_behaviour;
  setter_throws : bool;
  redisplay_does : redisplay_behaviour;
  goToPage_throws : bool
}.

Definition cooperative (r : redisplay_behaviour) : Behaviour :=
  mkBehaviour false false GetterArray false r false.

(** ** Computations *)

Inductive completion (A : Type) :=
  | Normal (a : A)
  | Abrupt (e : exn).
Arguments Normal {A} a.
Arguments Abrupt {A} e.

Definition M (A : Type) : Type :=
  PageMover * Shell -> completion A * (PageMover * Shell).

#[global] Instance M_ret : MRet M := fun A a st => (Normal a, st).

#[global] Instance M_bind : MBind M := fun A B k c st =>
  match c st with
  | (Normal a, st') => k a st'
  | (Abrupt e, st') => (Abrupt e, st')
  end.

Definition throw {A} (e : exn) : M A := fun st => (Abrupt e, st).

Definition try_catch {A} (body : M A) (handler : exn -> M A) : M A := fun st =>
  match body st with
  | (Normal a, st') => (Normal a, st')
  | (Abrupt e, st') => handler e st'
  end.

Definition try_finally {A} (body : M A) (finalizer : M unit) : M A := fun st =>
  match body st with
  | (c, st') =>
      match finalizer st' with
      | (Normal _, st'') => (c, st'')
      | (Abrupt e, st'') => (Abrupt e, st'')
      end
  end.

Definition this : M PageMover := fun st => (Normal (fst st), st).
Definition shell : M Shell := fun st => (Normal (snd st), st).
Definition update_this (f : PageMover -> PageMover) : M unit :=
  fun st => (Normal (), (f (fst st), snd st)).
Definition update_shell (f : Shell -> Shell) : M unit :=
  fun st => (Normal (), (fst st, f (snd st))).

Definition set_isMoving (v : bool) : M unit :=
  update_this (fun s =>
    mkPageMover (_appDisplay s) v (_targetPageIndex s) (_rearrangedSignalId s)).
Definition set_targetPageIndex (v : option Z) : M unit :=
  update_this (fun s =>
    mkPageMover (_appDisplay s) (_isMoving s) v (_rearrangedSignalId s)).
Definition set_rearrangedSignalId (v : option Z) : M unit :=
  update_this (fun s =>
    mkPageMover (_appDisplay s) (_isMoving s) (_targetPageIndex s) v).

(** JS truthiness of [this._rearrangedSignalId]: [null] and [0] are falsy. *)
Definition truthy (id : option Z) : bool :=
  match id with
  | None => false
  | Some n => negb (n =? 0)
  end.

(** *** Host calls *)

Definition logger (lvl : log_level) (msg : message) : M unit :=
  update_shell (fun w =>
    mkShell (pages w) (currentPage w) (nPages w) (handlers w)
            (next_handler_id w) (idle_sources w) (redisplays w)
            (navigations w) ((lvl, msg) :: logged w)).

(** [this._appDisplay.connect("view-loaded", cb)]: the callback is appended
    to the signal's handlers and its fresh id returned. *)
Definition appDisplay_connect (b : Behaviour) : M Z := fun st =>
  let w := snd st in
  if connect_throws b then (Abrupt HostError, st)
  else
    let id := next_handler_id w in
    (Normal id,
     (fst st,
      mkShell (pages w) (currentPage w) (nPages w) (handlers w ++ [id])
              (id + 1) (idle_sources w) (redisplays w)
              (navigations w) (logged w))).

Definition appDisplay_disconnect (b : Behaviour) (id : Z) : M unit := fun st =>
  let w := snd st in
  if disconnect_throws b then (Abrupt HostError, st)
  else
    (Normal (),
     (fst st,
      mkShell (pages w) (currentPage w) (nPages w)
              (filter (fun i => i <> id) (handlers w))
              (next_handler_id w) (idle_sources w) (redisplays w)
              (navigations w) (logged w))).

Definition appDisplay_goToPage (b : Behaviour) (index : Z) (animate : bool)
  : M unit := fun st =>
  let w := snd st in
  if goToPage_throws b then (Abrupt HostError, st)
  else
    (Normal (),
     (fst st,
      mkShell (pages w) (currentPage w) (nPages w) (handlers w)
              (next_handler_id w) (idle_sources w) (redisplays w)
              ((index, animate) :: navigations w) (logged w))).

Definition GLib_idle_add : M unit :=
  update_shell (fun w =>
    mkShell (pages w) (currentPage w) (nPages w) (handlers w)
            (next_handler_id w) (S (idle_sources w)) (redisplays w)
            (navigations w) (logged w)).

(** The getter of [this._pageManager.pages]; a value that is not an array
    makes the following [.splice] call raise a TypeError. *)
Definition pageManager_get_pages (b : Behaviour) : M (list page) := fun st =>
  match pages_getter b with
  | GetterThrows => (Abrupt HostError, st)
  | GetterNotArray => (Abrupt TypeError, st)
  | GetterArray => (Normal (pages (snd st)), st)
  end.

Definition pageManager_set_pages (b : Behaviour) (p : list page) : M unit :=
  fun st =>
  let w := snd st in
  if setter_throws b then (Abrupt HostError, st)
  else
    (Normal (),
     (fst st,
      mkShell p (currentPage w) (nPages w) (handlers w)
              (next_handler_id w) (idle_sources w) (redisplays w)
              (navigations w) (logged w))).

Definition lift_result {A} (r : exn + A) : M A :=
  match r with
  | inl e => throw e
  | inr a => mret a
  end.

(** ** The methods of PageMover *)

(** [if (this._rearrangedSignalId && this._appDisplay) {
       this._appDisplay.disconnect(this._rearrangedSignalId);
       this._rearrangedSignalId = null; }]
    as written in the 'view-loaded' callback and in the catch block. *)
Definition disconnect_listener (b : Behaviour) : M unit :=
  s ← this;
  match _rearrangedSignalId s with
  | Some id =>
      if truthy (Some id) && _appDisplay s then
        appDisplay_disconnect b id;;
        set_rearrangedSignalId None
      else mret ()
  | None => mret ()
  end.

(** [destroy()] (lines 26-37): a raising [disconnect] is suppressed. *)
Definition destroy (b : Behaviour) : M unit :=
  s ← this;
  match _rearrangedSignalId s with
  | Some id =>
      if truthy (Some id) && _appDisplay s then
        try_catch (appDisplay_disconnect b id) (fun _ => mret ())
      else mret ()
  | None => mret ()
  end;;
  set_rearrangedSignalId None;;
  set_isMoving false;;
  set_targetPageIndex None.

(** The callback handed to [GLib.idle_add] (lines 101-121). *)
Definition idle_callback (b : Behaviour) : M unit :=
  s ← this;
  match _targetPageIndex s with
  | Some target =>
      if negb (_appDisplay s) then
        logger Warn StateChangedBeforeIdle;;
        set_isMoving false
      else
        try_finally
          (try_catch
             (logger Debug (IdleNavigating target);;
              appDisplay_goToPage b target false)
             (fun e => logger Error (IdleNavigationError e)))
          (logger Debug IdleCleaningUp;;
           set_targetPageIndex None;;
           set_isMoving false)
  | None =>
      logger Warn StateChangedBeforeIdle;;
      set_isMoving false
  end.

(** The callback connected to 'view-loaded' (lines 77-122). *)
Definition view_loaded_callback (b : Behaviour) : M unit :=
  s ← this;
  match _targetPageIndex s with
  | Some target =>
      if negb (_appDisplay s) then
        logger Warn StateAlreadyCleared;;
        disconnect_listener b
      else
        logger Debug (ViewLoadedReceived target);;
        disconnect_listener b;;
        GLib_idle_add
  | None =>
      logger Warn StateAlreadyCleared;;
      disconnect_listener b
  end.

(** Emission of 'view-loaded': every callback of the object that was
    connected when the emission started and still is when its turn comes is
    invoked; an exception leaving a callback is reported by the signal
    machinery and does not reach the emitter. *)
Fixpoint emit_to (b : Behaviour) (snapshot : list Z) : M unit :=
  match snapshot with
  | [] => mret ()
  | id :: snapshot' =>
      w ← shell;
      (if bool_decide (id ∈ handlers w) then
         try_catch (view_loaded_callback b) (fun _ => mret ())
       else mret ());;
      emit_to b snapshot'
  end.

Definition emit_view_loaded (b : Behaviour) : M unit :=
  w ← shell;
  emit_to b (handlers w).

(** [this._appDisplay._redisplay()]. *)
Definition appDisplay_redisplay (b : Behaviour) : M unit :=
  match redisplay_does b with
  | RedisplayThrows => throw HostError
  | RedisplayDeferred =>
      update_shell (fun w =>
        mkShell (pages w) (currentPage w) (nPages w) (handlers w)
                (next_handler_id w) (idle_sources w) (S (redisplays w))
                (navigations w) (logged w))
  | RedisplayEmits =>
      update_shell (fun w =>
        mkShell (pages w) (currentPage w) (nPages w) (handlers w)
                (next_handler_id w) (idle_sources w) (S (redisplays w))
                (navigations w) (logged w));;
      emit_view_loaded b
  end.

(** The [try] block of [_executeSingleMove] (lines 125-143). *)
Definition perform_data_manipulation (b : Behaviour)
  (currentPageIndex newPageIndex : Z) : M unit :=
  pagesJS ← pageManager_get_pages b;
  let pagesJS := splice_move currentPageIndex newPageIndex pagesJS in
  pagesJS ← lift_result (_normalizePages pagesJS);
  pageManager_set_pages b pagesJS;;
  logger Debug SaveSuccessful;;
  appDisplay_redisplay b.

(** Its [catch] block (lines 144-153). *)
Definition reset_everything (b : Behaviour) (e : exn) : M unit :=
  logger Error (SaveFailed e);;
  disconnect_listener b;;
  set_targetPageIndex None;;
  set_isMoving false.

(** [_executeSingleMove(currentPageIndex, newPageIndex)] (lines 62-154):
    the guard, the busy mark, the subscription (outside the [try]), then
    the guarded mutation. *)
Definition _executeSingleMove (b : Behaviour) (currentPageIndex newPageIndex : Z)
  : M unit :=
  s ← this;
  if negb (_appDisplay s) || _isMoving s then
    logger Debug MoveInProgress
  else
    logger Debug (MoveRequested currentPageIndex newPageIndex);;
    set_isMoving true;;
    set_targetPageIndex (Some newPageIndex);;
    id ← appDisplay_connect b;
    set_rearrangedSignalId (Some id);;
    try_catch
      (perform_data_manipulation b currentPageIndex newPageIndex)
      (reset_everything b).

(** *** Public API (lines 158-200)

    Each method reads [grid.currentPage] (and [grid.nPages]) and issues at
    most one move. *)

Definition movePageLeft (b : Behaviour) : M unit :=
  s ← this;
  if negb (_appDisplay s) then mret ()
  else
    w ← shell;
    let currentPageIndex := currentPage w in
    if 0 <? currentPageIndex then
      _executeSingleMove b currentPageIndex (currentPageIndex - 1)
    else mret ().

Definition movePageRight (b : Behaviour) : M unit :=
  s ← this;
  if negb (_appDisplay s) then mret ()
  else
    w ← shell;
    let currentPageIndex := currentPage w in
    let numPages := nPages w in
    if currentPageIndex <? numPages - 1 then
      _executeSingleMove b currentPageIndex (currentPageIndex + 1)
    else mret ().

Definition moveToFirstPage (b : Behaviour) : M unit :=
  s ← this;
  if negb (_appDisplay s) then mret ()
  else
    w ← shell;
    let currentPageIndex := currentPage w in
    if 0 <? currentPageIndex then
      let targetIndex := 0 in
      _executeSingleMove b currentPageIndex targetIndex
    else mret ().

Definition moveToLastPage (b : Behaviour) : M unit :=
  s ← this;
  if negb (_appDisplay s) then mret ()
  else
    w ← shell;
    let currentPageIndex := currentPage w in
    let numPages := nPages w in
    let lastIndex := numPages - 1 in
    if currentPageIndex <? lastIndex then
      _executeSingleMove b currentPageIndex lastIndex
    else mret ().

(** [new PageMover(logger, appDisplay)] with a truthy [appDisplay]. *)
Definition constructor : PageMover := mkPageMover true false None None.

(** ** The main loop *)

(** What can happen to a PageMover: a menu action calls one of its public
    methods, the extension calls [destroy], the AppDisplay emits
    'view-loaded', the main loop runs a queued idle callback, or the grid
    changes under it. *)
Inductive event :=
  | CallMovePageLeft (b : Behaviour)
  | CallMovePageRight (b : Behaviour)
  | CallMoveToFirstPage (b : Behaviour)
  | CallMoveToLastPage (b : Behaviour)
  | CallDestroy (b : Behaviour)
  | ViewLoaded (b : Behaviour)
  | IdleDispatch (b : Behaviour)
  | GridChanged (current count : Z).

(** The main loop takes one queued idle callback, runs it, and drops the
    source since the callback returns [GLib.SOURCE_REMOVE]. *)
Definition dispatch_idle (b : Behaviour) : M unit :=
  w ← shell;
  match idle_sources w with
  | O => mret ()
  | S _ =>
      idle_callback b;;
      update_shell (fun w =>
        mkShell (pages w) (currentPage w) (nPages w) (handlers w)
                (next_handler_id w) (Nat.pred (idle_sources w)) (redisplays w)
                (navigations w) (logged w))
  end.

Definition grid_changed (current count : Z) : M unit :=
  update_shell (fun w =>
    mkShell (pages w) current count (handlers w)
            (next_handler_id w) (idle_sources w) (redisplays w)
            (navigations w) (logged w)).

Definition handle (ev : event) : M unit :=
  match ev with
  | CallMovePageLeft b => movePageLeft b
  | CallMovePageRight b => movePageRight b
  | CallMoveToFirstPage b => moveToFirstPage b
  | CallMoveToLastPage b => moveToLastPage b
  | CallDestroy b => destroy b
  | ViewLoaded b => emit_view_loaded b
  | IdleDispatch b => dispatch_idle b
  | GridChanged current count => grid_changed current count
  end.

(** An exception that leaves a method is reported by the caller (the button
    or the main loop); the object stays as the method left it. *)
Definition step (st : PageMover * Shell) (ev : event) : PageMover * Shell :=
  snd (handle ev st).

Definition run (trace : list event) (st : PageMover * Shell) : PageMover * Shell :=
  fold_left step trace st.

(** A host in which nothing of the object is connected or queued yet. *)
Definition fresh_shell (p : list page) (current count : Z) : Shell :=
  mkShell p current count [] 1 0 0 [] [].

(** ** Reference definitions, in the words of the specification *)

(** "Remove the record at [from], reinsert it at [to]". *)
Definition remove_and_reinsert (from to : nat) (layout : list page) : list page :=
  match layout !! from with
  | Some record =>
      let others := delete from layout in
      take to others ++ record :: drop to others
  | None => layout
  end.

(** A two-element swap of the records at [i] and [j], for contrast. *)
Definition swap_two (i j : nat) (layout : list page) : list page :=
  match layout !! i, layout !! j with
  | Some a, Some b => <[i:=b]> (<[j:=a]> layout)
  | _, _ => layout
  end.

(** The typed-variant form of a position: a number is wrapped, anything
    else is kept. *)
Definition wrap_position (v : position_value) : position_value :=
  match v with
  | PosNumber n => PosVariant n
  | _ => v
  end.

(** [wrapped_entry e e']: [e'] is the application entry [e] with its
    [position] wrapped and every other field as it was. *)
Definition wrapped_entry (e e' : string * properties) : Prop :=
  (e.1 = e'.1) /\
  (exists pos rest,
     e.2 = PropsObject pos rest /\ e'.2 = PropsObject (wrap_position pos) rest).

Definition wrapped_page (p p' : page) : Prop :=
  match p, p' with
  | PageUndefined, PageUndefined => True
  | PageObject es, PageObject es' => Forall2 wrapped_entry es es'
  | _, _ => False
  end.

(** The application ids of a page record, in key order. *)
Definition page_apps (p : page) : list string :=
  match p with
  | PageUndefined => []
  | PageObject es => es.*1
  end.

(** No field of any entry holds a plain number. *)
Definition fully_wrapped_properties (p : properties) : bool :=
  match p with
  | PropsNull => true
  | PropsObject pos rest =>
      match pos with PosNumber _ => false | _ => true end
      && forallb (fun f => match f.2 with PosNumber _ => false | _ => true end) rest
  end.

Definition fully_wrapped_page (p : page) : bool :=
  match p with
  | PageUndefined => true
  | PageObject es => forallb (fun e => fully_wrapped_properties e.2) es
  end.

(** The callbacks and [destroy] touch neither the store nor the grid. *)
Definition same_store (w w' : Shell) : Prop :=
  pages w' = pages w /\ currentPage w' = currentPage w /\ nPages w' = nPages w.

(** Sample page records: one application at a position, as the getter
    unpacks it and as the setter receives it. *)
Definition page_of (appId : string) (n : Z) : page :=
  PageObject [(appId, PropsObject (PosNumber n) [])].

Definition saved_page_of (appId : string) (n : Z) : page :=
  PageObject [(appId, PropsObject (PosVariant n) [])].

Definition layout_ABCDE : list page :=
  [page_of "A" 0; page_of "B" 0; page_of "C" 0; page_of "D" 0; page_of "E" 0].

(** The store, the signal table, the idle queue and the calls made to the
    host are the same in [w'] as in [w]; only the log may have grown by the
    debug line of the guard. *)
Definition untouched_but_log (w w' : Shell) : Prop :=
  pages w' = pages w /\ currentPage w' = currentPage w /\ nPages w' = nPages w
  /\ handlers w' = handlers w /\ next_handler_id w' = next_handler_id w
  /\ idle_sources w' = idle_sources w /\ redisplays w' = redisplays w
  /\ navigations w' = navigations w
  /\ (logged w' = logged w \/ logged w' = (Debug, MoveInProgress) :: logged w).




(** The exception, if any, that lines 127-137 raise: reading the layout,
    splicing it, normalizing it and writing it back. *)
Definition mutation_failure (b : Behaviour) (from to : Z) (w : Shell) : option exn :=
  match pages_getter b with
  | GetterThrows => Some HostError
  | GetterNotArray => Some TypeError
  | GetterArray =>
      match _normalizePages (splice_move from to (pages w)) with
      | inl e => Some e
      | inr _ => if setter_throws b then Some HostError else None
      end
  end.

(** "If the busy flag is false then no view-loaded listener is registered". *)
Definition listener_only_while_moving (s : PageMover) : Prop :=
  _isMoving s = false -> _rearrangedSignalId s = None.

Definition is_move (ev : event) : bool :=
  match ev with
  | CallMovePageLeft _ | CallMovePageRight _
  | CallMoveToFirstPage _ | CallMoveToLastPage _ => true
  | _ => false
  end.

Definition is_destroy (ev : event) : bool :=
  match ev with
  | CallDestroy _ => true
  | _ => false
  end.

(** The way the extension uses a PageMover: once [destroy()] has been
    called ([_onOverviewHidden] then drops the object) no public move
    method is called on it again; callbacks still pending may run. *)
Fixpoint no_move_after_destroy (trace : list event) : bool :=
  match trace with
  | [] => true
  | CallDestroy _ :: trace' => forallb (fun ev => negb (is_move ev)) trace'
  | _ :: trace' => no_move_after_destroy trace'
  end.

(** What holds of a PageMover and its host from construction until
    [destroy()]: ids handed out are positive; an idle object has no target,
    no listener id and no idle callback queued; a busy one has a handle and
    a target; the connected callbacks are exactly the recorded listener;
    and while a listener is recorded no idle callback is queued. *)
Definition live_invariant (st : PageMover * Shell) : Prop :=
  0 < next_handler_id st.2
  /\ (_isMoving st.1 = false ->
      _targetPageIndex st.1 = None /\ _rearrangedSignalId st.1 = None
      /\ idle_sources st.2 = 0%nat)
  /\ (_isMoving st.1 = true ->
      _appDisplay st.1 = true /\ _targetPageIndex st.1 <> None)
  /\ handlers st.2
     = match _rearrangedSignalId st.1 with Some id => [id] | None => [] end
  /\ (forall id, _rearrangedSignalId st.1 = Some id ->
      id <> 0 /\ idle_sources st.2 = 0%nat)
  /\ (idle_sources st.2 <= 1)%nat.

(** What holds of it after [destroy()]. *)
Definition torn_down (st : PageMover * Shell) : Prop :=
  _isMoving st.1 = false /\ _targetPageIndex st.1 = None
  /\ _rearrangedSignalId st.1 = None.

(** ** Further reference definitions *)

(** Some application entry of some page is [null]/[undefined]. *)
Definition has_null_entry (layout : list page) : bool :=
  existsb (fun p =>
    match p with
    | PageUndefined => false
    | PageObject es =>
        existsb (fun e => match e.2 with PropsNull => true | _ => false end) es
    end) layout.

(** Events that deliver nothing to a move in flight: no 'view-loaded' and
    no [destroy()]. *)
Definition is_quiet (ev : event) : bool :=
  match ev with
  | ViewLoaded _ | CallDestroy _ => false
  | _ => true
  end.

(** [w'] differs from [w] at most in the log and in what the grid shows:
    the same layout, the same calls made to the host, the same callbacks
    connected and queued. *)
Definition no_host_effect (w w' : Shell) : Prop :=
  pages w' = pages w /\ handlers w' = handlers w
  /\ next_handler_id w' = next_handler_id w
  /\ idle_sources w' = idle_sources w /\ redisplays w' = redisplays w
  /\ navigations w' = navigations w.

(** [w'] has the layout of [w] and no further [goToPage] or [_redisplay]
    call. *)
Definition no_store_or_view_effect (w w' : Shell) : Prop :=
  pages w' = pages w /\ redisplays w' = redisplays w
  /\ navigations w' = navigations w.

(** * utils/logger.js *)

Module Logger.

(** [LogLevel] and its numeric order. *)
Inductive LogLevel := ERROR | WARN | INFO | DEBUG.

Definition level_value (l : LogLevel) : Z :=
  match l with
  | ERROR => 0
  | WARN => 1
  | INFO => 2
  | DEBUG => 3
  end.

(** JS truthiness of a string: only the empty string is falsy. *)
Definition string_truthy (s : string) : bool :=
  match s with
  | EmptyString => false
  | String _ _ => true
  end.

(** [_getLogLevel()], given what [GLib.getenv("SHELL_DEBUG")] returns
    ([null] is [None]). *)
Definition _getLogLevel (shell_debug : option string) : LogLevel :=
  let debugMode :=
    match shell_debug with
    | Some v => string_truthy v
    | None => false
    end in
  if debugMode then DEBUG else INFO.

(** The [metadata] argument when it is truthy: reading [metadata.name]
    inside the template either yields its text or raises. *)
Inductive metadata :=
  | MetadataName (name : string)
  | MetadataNameThrows (e : string).

(** The optional [errorObject] of [error()]: a falsy value, or a value
    with its [message] and [stack] properties (if any) and its string
    form. *)
Inductive error_object :=
  | NoErrorObject
  | ErrorObject (message : option string) (as_string : string)
                (stack : option string).

Inductive console_method := ConsoleLog | ConsoleWarn | ConsoleError.

(** One call [console.<method>(text, ...data)]. *)
Record console_call := mkCall {
  method : console_method;
  text : string;
  data : list string
}.

(** The module-level variables and the console, latest call first. *)
Record state := mkState {
  currentLogLevel : LogLevel;
  _prefix : option string;
  console : list console_call
}.

(** Evaluating the module: the level is computed once, the prefix cache
    starts as [null]. *)
Definition load (shell_debug : option string) : state :=
  mkState (_getLogLevel shell_debug) None [].

Definition console_write (m : console_method) (t : string) (d : list string)
  (st : state) : state :=
  mkState (currentLogLevel st) (_prefix st) (mkCall m t d :: console st).

Definition set_prefix (p : string) (st : state) : state :=
  mkState (currentLogLevel st) (Some p) (console st).

Definition prefix_truthy (p : option string) : bool :=
  match p with
  | Some s => string_truthy s
  | None => false
  end.

(** Steps 2 and 3 of [_getPrefix]: with no usable cache, initialize it
    from a truthy [metadata] (falling back to a fixed text when reading the
    name raises), or answer with the failsafe text and cache nothing. *)
Definition initialize_prefix (md : option metadata) (st : state) : string * state :=
  match md with
  | Some (MetadataName name) =>
      let p := "[" +:+ name +:+ "]" in (p, set_prefix p st)
  | Some (MetadataNameThrows e) =>
      let st' :=
        console_write ConsoleError
          "Failed to get extension metadata for logger" [e] st in
      ("[UNKNOWN EXTENSION]", set_prefix "[UNKNOWN EXTENSION]" st')
  | None => ("[UNINITIALIZED LOGGER]", st)
  end.

(** [_getPrefix(metadata = null)] (lines 41-61). *)
Definition _getPrefix (md : option metadata) (st : state) : string * state :=
  match _prefix st with
  | Some p => if string_truthy p then (p, st) else initialize_prefix md st
  | None => initialize_prefix md st
  end.

(** [new Logger(metadata)]. *)
Definition constructor (md : option metadata) (st : state) : state :=
  (_getPrefix md st).2.

(** [debug(message, ...data)] (lines 79-89). *)
Definition debug (message : string) (d : list string) (st : state) : state :=
  if level_value (currentLogLevel st) <? level_value DEBUG then st
  else
    let '(p, st') := _getPrefix None st in
    console_write ConsoleLog (p +:+ ": (DEBUG) " +:+ message) d st'.

(** [info(message)] (lines 96-102). *)
Definition info (message : string) (st : state) : state :=
  if level_value (currentLogLevel st) <? level_value INFO then st
  else
    let '(p, st') := _getPrefix None st in
    console_write ConsoleLog (p +:+ ": (INFO) " +:+ message) [] st'.

(** [warn(message)] (lines 108-113). *)
Definition warn (message : string) (st : state) : state :=
  if level_value (currentLogLevel st) <? level_value WARN then st
  else
    let '(p, st') := _getPrefix None st in
    console_write ConsoleWarn (p +:+ ": (WARN) " +:+ message) [] st'.

(** [errorObject.message || errorObject], as text. *)
Definition error_detail (message : option string) (as_string : string) : string :=
  match message with
  | Some m => if string_truthy m then m else as_string
  | None => as_string
  end.

(** [error(message, errorObject = null)] (lines 120-134). *)
Definition error (message : string) (errorObject : error_object) (st : state)
  : state :=
  if level_value (currentLogLevel st) <? level_value ERROR then st
  else
    let errorMessage :=
      match errorObject with
      | ErrorObject m s _ => message +:+ " | Error: " +:+ error_detail m s
      | NoErrorObject => message
      end in
    let '(p, st') := _getPrefix None st in
    let st'' := console_write ConsoleError (p +:+ ": (ERROR) " +:+ errorMessage) [] st' in
    match errorObject with
    | ErrorObject _ _ (Some stack) =>
        if string_truthy stack then console_write ConsoleError stack [] st''
        else st''
    | _ => st''
    end.

(** A use of the module. *)
Inductive call :=
  | NewLogger (md : option metadata)
  | Debug (message : string) (d : list string)
  | Info (message : string)
  | Warn (message : string)
  | Error (message : string) (errorObject : error_object).

Definition perform (st : state) (c : call) : state :=
  match c with
  | NewLogger md => constructor md st
  | Debug m d => debug m d st
  | Info m => info m st
  | Warn m => warn m st
  | Error m e => error m e st
  end.

Definition perform_all (calls : list call) (st : state) : state :=
  fold_left perform calls st.

(** The prefix the first Logger built from a truthy [metadata] gives. *)
Fixpoint first_prefix (calls : list call) : option string :=
  match calls with
  | [] => None
  | NewLogger (Some (MetadataName name)) :: _ => Some ("[" +:+ name +:+ "]")
  | NewLogger (Some (MetadataNameThrows _)) :: _ => Some "[UNKNOWN EXTENSION]"
  | _ :: calls' => first_prefix calls'
  end.

(** How many console lines a call writes, given whether debug mode is on
    and whether a prefix is cached. *)
Definition lines_written (dbg cached : bool) (c : call) : nat :=
  match c with
  | NewLogger (Some (MetadataNameThrows _)) => if cached then 0 else 1
  | NewLogger _ => 0
  | Debug _ _ => if dbg then 1 else 0
  | Info _ | Warn _ => 1
  | Error _ (ErrorObject _ _ (Some stack)) => if string_truthy stack then 2 else 1
  | Error _ _ => 1
  end.

(** Debug mode: [SHELL_DEBUG] is set to a non-empty value. *)
Definition debug_mode (shell_debug : option string) : bool :=
  match shell_debug with
  | Some (String _ _) => true
  | _ => false
  end.

End Logger.

(** * A state-and-exception monad over any state *)

Definition ST (S A : Type) : Type := S -> completion A * S.

#[global] Instance ST_ret {S} : MRet (ST S) := fun A a st => (Normal a, st).

#[global] Instance ST_bind {S} : MBind (ST S) := fun A B k c st =>
  match c st with
  | (Normal a, st') => k a st'
  | (Abrupt e, st') => (Abrupt e, st')
  end.

Definition ST_throw {S A} (e : exn) : ST S A := fun st => (Abrupt e, st).

Definition ST_get {S} : ST S S := fun st => (Normal st, st).

Definition ST_modify {S} (f : S -> S) : ST S unit := fun st => (Normal (), f st).

(** * utils/ui.js *)

Module Ui.

(** One element of [configs]: [{ label, action }]. *)
Record ButtonConfig (A : Type) := mkConfig {
  label : string;
  action : A
}.
Arguments mkConfig {A} label action.
Arguments label {A} b.
Arguments action {A} b.

(** An [St.Button] as [createButton] makes it; [clicked_config] is the
    [config] its "clicked" callback closes over. *)
Record Button (A : Type) := mkButton {
  button_label : string;
  can_focus : bool;
  x_expand : bool;
  style_class : string;
  clicked_config : ButtonConfig A
}.
Arguments mkButton {A} button_label can_focus x_expand style_class clicked_config.
Arguments button_label {A} b.
Arguments can_focus {A} b.
Arguments x_expand {A} b.
Arguments style_class {A} b.
Arguments clicked_config {A} b.

Record BoxLayout (A : Type) := mkBox {
  box_x_expand : bool;
  box_style_class : string;
  box_reactive : bool;
  children : list (Button A)
}.
Arguments mkBox {A} box_x_expand box_style_class box_reactive children.
Arguments box_x_expand {A} b.
Arguments box_style_class {A} b.
Arguments box_reactive {A} b.
Arguments children {A} b.

Record PopupBaseMenuItem (A : Type) := mkItem {
  activate : bool;
  hover : bool;
  reactive : bool;
  actor_reactive : bool;
  box : BoxLayout A
}.
Arguments mkItem {A} activate hover reactive actor_reactive box.
Arguments activate {A} p.
Arguments hover {A} p.
Arguments reactive {A} p.
Arguments actor_reactive {A} p.
Arguments box {A} p.

Definition createButton {A} (config : ButtonConfig A) : Button A :=
  mkButton (label config) true true "button icon-button menu-action-button" config.

(** [createHorizontalButtonRow(configs, menu)] (lines 19-57 of utils/ui.js);
    a falsy [configs] is [None]. *)
Definition createHorizontalButtonRow {A} (configs : option (list (ButtonConfig A)))
  : PopupBaseMenuItem A :=
  let configs :=
    match configs with
    | Some cs => cs
    | None => []
    end in
  mkItem false false false false
    (mkBox true "popup-menu-item-button-box" false (map createButton configs)).

(** The "clicked" callback of a button:
    [() => { menu.close(); config.action(); }], given what closing the menu
    and invoking an action do. *)
Definition clicked {S A} (menu_close : ST S unit) (invoke : A -> ST S unit)
  (button : Button A) : ST S unit :=
  menu_close;;
  invoke (action (clicked_config button)).

(** What a click does to the outside, for stating properties. *)
Inductive effect (A : Type) :=
  | MenuClosed
  | ActionInvoked (a : A).
Arguments MenuClosed {A}.
Arguments ActionInvoked {A} a.

Definition record_close {A} : ST (list (effect A)) unit :=
  ST_modify (fun tr => tr ++ [MenuClosed]).

Definition record_action {A} (a : A) : ST (list (effect A)) unit :=
  ST_modify (fun tr => tr ++ [ActionInvoked a]).

End Ui.

(** * extension.js *)

Module Extension.

(** The public methods of a PageMover, and the calls the extension makes
    on one. *)
Inductive mover_method :=
  | MoveToFirstPage
  | MovePageLeft
  | MovePageRight
  | MoveToLastPage.

Inductive mover_call :=
  | Construct
  | Method (m : mover_method)
  | Destroy.

(** The [PopupMenu] made in [enable()]: whether it is open, the actor it is
    attached to ([None] is [Main.overview], as constructed) and its items. *)
Record PopupMenu := mkMenu {
  isOpen : bool;
  sourceActor : option nat;
  items : list (Ui.PopupBaseMenuItem mover_method)
}.

(** The fields of the extension object; [null] and [undefined] are [None],
    actors and PageMovers are named by numbers. *)
Record Fields := mkFields {
  _pageIndicators : option nat;
  _appDisplay : option nat;
  _pageMover : option nat;
  _rightClickSignalId : option Z;
  _rightClickAppDisplaySignalId : option Z;
  _overviewShowSignalId : option Z;
  _overviewHideSignalId : option Z;
  _menuManager : bool;
  _menu : option PopupMenu
}.

Inductive overview_signal := Showing | Hiding.

Inductive press_callback := IndicatorsPressed | AppDisplayPressed.

(** The shell as far as the extension itself acts on it: the callbacks the
    extension has connected on [Main.overview] and the 'button-press-event'
    callbacks it has connected on actors (in connection order), the next
    handler id, the idle callbacks [_onOverviewShown] has queued, the
    actors it made reactive, its menus alive in [Main.uiGroup], the
    PageMovers constructed so far and the calls made on them (oldest
    first), and the lines logged.  What a PageMover connects on the
    AppDisplay or queues in the main loop is not counted here: that is the
    [Shell] of the PageMover above. *)
Record Desktop := mkDesktop {
  overview_handlers : list (Z * overview_signal);
  actor_handlers : list (Z * (nat * press_callback));
  next_signal_id : Z;
  idle_queue : nat;
  reactive_actors : list nat;
  live_menus : nat;
  movers_created : nat;
  mover_calls : list (nat * mover_call);
  messages : list string
}.

(** What [Main.overview] exposes when the idle callback looks: the private
    [_overview?._controls] (and its [_appDisplay]), the public
    [controls?.appDisplay] and [dash?.appDisplay], the [_pageIndicators] of
    the AppDisplay and [controls?.pageIndicators]. *)
Record Lookup := mkLookup {
  private_controls : option (option nat);
  controls_appDisplay : option nat;
  dash_appDisplay : option nat;
  appDisplay_pageIndicators : option nat;
  controls_pageIndicators : option nat
}.

Definition E (A : Type) : Type := ST (Fields * Desktop) A.

Definition this : E Fields := fun st => (Normal st.1, st).
Definition desktop : E Desktop := fun st => (Normal st.2, st).
Definition update_this (f : Fields -> Fields) : E unit :=
  fun st => (Normal (), (f st.1, st.2)).
Definition update_desktop (f : Desktop -> Desktop) : E unit :=
  fun st => (Normal (), (st.1, f st.2)).

Definition set_pageIndicators (v : option nat) : E unit :=
  update_this (fun x =>
    mkFields v (_appDisplay x) (_pageMover x) (_rightClickSignalId x)
      (_rightClickAppDisplaySignalId x) (_overviewShowSignalId x)
      (_overviewHideSignalId x) (_menuManager x) (_menu x)).
Definition set_appDisplay (v : option nat) : E unit :=
  update_this (fun x =>
    mkFields (_pageIndicators x) v (_pageMover x) (_rightClickSignalId x)
      (_rightClickAppDisplaySignalId x) (_overviewShowSignalId x)
      (_overviewHideSignalId x) (_menuManager x) (_menu x)).
Definition set_pageMover (v : option nat) : E unit :=
  update_this (fun x =>
    mkFields (_pageIndicators x) (_appDisplay x) v (_rightClickSignalId x)
      (_rightClickAppDisplaySignalId x) (_overviewShowSignalId x)
      (_overviewHideSignalId x) (_menuManager x) (_menu x)).
Definition set_rightClickSignalId (v : option Z) : E unit :=
  update_this (fun x =>
    mkFields (_pageIndicators x) (_appDisplay x) (_pageMover x) v
      (_rightClickAppDisplaySignalId x) (_overviewShowSignalId x)
      (_overviewHideSignalId x) (_menuManager x) (_menu x)).
Definition set_rightClickAppDisplaySignalId (v : option Z) : E unit :=
  update_this (fun x =>
    mkFields (_pageIndicators x) (_appDisplay x) (_pageMover x)
      (_rightClickSignalId x) v (_overviewShowSignalId x)
      (_overviewHideSignalId x) (_menuManager x) (_menu x)).
Definition set_overviewShowSignalId (v : option Z) : E unit :=
  update_this (fun x =>
    mkFields (_pageIndicators x) (_appDisplay x) (_pageMover x)
      (_rightClickSignalId x) (_rightClickAppDisplaySignalId x) v
      (_overviewHideSignalId x) (_menuManager x) (_menu x)).
Definition set_overviewHideSignalId (v : option Z) : E unit :=
  update_this (fun x =>
    mkFields (_pageIndicators x) (_appDisplay x) (_pageMover x)
      (_rightClickSignalId x) (_rightClickAppDisplaySignalId x)
      (_overviewShowSignalId x) v (_menuManager x) (_menu x)).
Definition set_menuManager (v : bool) : E unit :=
  update_this (fun x =>
    mkFields (_pageIndicators x) (_appDisplay x) (_pageMover x)
      (_rightClickSignalId x) (_rightClickAppDisplaySignalId x)
      (_overviewShowSignalId x) (_overviewHideSignalId x) v (_menu x)).
Definition set_menu (v : option PopupMenu) : E unit :=
  update_this (fun x =>
    mkFields (_pageIndicators x) (_appDisplay x) (_pageMover x)
      (_rightClickSignalId x) (_rightClickAppDisplaySignalId x)
      (_overviewShowSignalId x) (_overviewHideSignalId x) (_menuManager x) v).

(** JS truthiness of a handler id. *)
Definition id_truthy (id : option Z) : bool :=
  match id with
  | None => false
  | Some n => negb (n =? 0)
  end.

(** *** Host calls *)

Definition log (line : string) : E unit :=
  update_desktop (fun w =>
    mkDesktop (overview_handlers w) (actor_handlers w) (next_signal_id w)
      (idle_queue w) (reactive_actors w) (live_menus w) (movers_created w)
      (mover_calls w) (line :: messages w)).

Definition overview_connect (s : overview_signal) : E Z := fun st =>
  let w := st.2 in
  let id := next_signal_id w in
  (Normal id,
   (st.1,
    mkDesktop (overview_handlers w ++ [(id, s)]) (actor_handlers w) (id + 1)
      (idle_queue w) (reactive_actors w) (live_menus w) (movers_created w)
      (mover_calls w) (messages w))).

(** Whether a callback with this id is connected. *)
Definition connected {A} (id : Z) (hs : list (Z * A)) : bool :=
  bool_decide (id ∈ hs.*1).

(** [disconnect(id)] on an object drops the callback with that id. *)
Definition without_handler {A} (id : Z) (hs : list (Z * A)) : list (Z * A) :=
  filter (fun h => h.1 <> id) hs.

Definition overview_disconnect (id : Z) : E unit :=
  update_desktop (fun w =>
    mkDesktop (without_handler id (overview_handlers w))
      (actor_handlers w) (next_signal_id w)
      (idle_queue w) (reactive_actors w) (live_menus w) (movers_created w)
      (mover_calls w) (messages w)).

Definition actor_connect (actor : nat) (cb : press_callback) : E Z := fun st =>
  let w := st.2 in
  let id := next_signal_id w in
  (Normal id,
   (st.1,
    mkDesktop (overview_handlers w) (actor_handlers w ++ [(id, (actor, cb))])
      (id + 1) (idle_queue w) (reactive_actors w) (live_menus w)
      (movers_created w) (mover_calls w) (messages w))).

(** [actor.disconnect(id)] drops the callback with that id if it is
    connected on that actor. *)
Definition without_actor_handler (actor : nat) (id : Z)
  (hs : list (Z * (nat * press_callback))) : list (Z * (nat * press_callback)) :=
  filter (fun h => ~ (h.1 = id /\ h.2.1 = actor)) hs.

Definition actor_disconnect (actor : nat) (id : Z) : E unit :=
  update_desktop (fun w =>
    mkDesktop (overview_handlers w)
      (without_actor_handler actor id (actor_handlers w))
      (next_signal_id w) (idle_queue w) (reactive_actors w) (live_menus w)
      (movers_created w) (mover_calls w) (messages w)).

Definition set_reactive (actor : nat) : E unit :=
  update_desktop (fun w =>
    mkDesktop (overview_handlers w) (actor_handlers w) (next_signal_id w)
      (idle_queue w) (actor :: reactive_actors w) (live_menus w)
      (movers_created w) (mover_calls w) (messages w)).

Definition GLib_idle_add : E unit :=
  update_desktop (fun w =>
    mkDesktop (overview_handlers w) (actor_handlers w) (next_signal_id w)
      (S (idle_queue w)) (reactive_actors w) (live_menus w)
      (movers_created w) (mover_calls w) (messages w)).

Definition uiGroup_add_menu : E unit :=
  update_desktop (fun w =>
    mkDesktop (overview_handlers w) (actor_handlers w) (next_signal_id w)
      (idle_queue w) (reactive_actors w) (S (live_menus w))
      (movers_created w) (mover_calls w) (messages w)).

Definition menu_actor_destroyed : E unit :=
  update_desktop (fun w =>
    mkDesktop (overview_handlers w) (actor_handlers w) (next_signal_id w)
      (idle_queue w) (reactive_actors w) (Nat.pred (live_menus w))
      (movers_created w) (mover_calls w) (messages w)).

(** A call on PageMover number [k] is recorded as made.  What the call
    does is the PageMover's own ([movePageLeft] and the like, and
    [destroy], above): it reads and writes no field of the extension and
    none of the callbacks the extension connected or queued. *)
Definition record_mover_call (k : nat) (c : mover_call) : E unit :=
  update_desktop (fun w =>
    mkDesktop (overview_handlers w) (actor_handlers w) (next_signal_id w)
      (idle_queue w) (reactive_actors w) (live_menus w)
      (movers_created w) (mover_calls w ++ [(k, c)]) (messages w)).

(** [new PageMover(this.getLogger(), this._appDisplay)]: the next PageMover. *)
Definition new_PageMover : E nat := fun st =>
  let w := st.2 in
  let k := movers_created w in
  (Normal k,
   (st.1,
    mkDesktop (overview_handlers w) (actor_handlers w) (next_signal_id w)
      (idle_queue w) (reactive_actors w) (live_menus w)
      (S k) (mover_calls w ++ [(k, Construct)]) (messages w))).

(** *** The menu *)

(** [this._menu?.close()]. *)
Definition menu_close_if_any : E unit :=
  x ← this;
  match _menu x with
  | Some m => set_menu (Some (mkMenu false (sourceActor m) (items m)))
  | None => mret ()
  end.

(** [this._menu.open(true)]: a TypeError when there is no menu. *)
Definition menu_open : E unit :=
  x ← this;
  match _menu x with
  | Some m => set_menu (Some (mkMenu true (sourceActor m) (items m)))
  | None => ST_throw TypeError
  end.

(** [this._menu.addMenuItem(item)]. *)
Definition menu_addMenuItem (item : Ui.PopupBaseMenuItem mover_method) : E unit :=
  x ← this;
  match _menu x with
  | Some m => set_menu (Some (mkMenu (isOpen m) (sourceActor m) (items m ++ [item])))
  | None => ST_throw TypeError
  end.

(** [this._pageMover?.<method>()]: the action of a button.  It is the
    last statement of the click handler, so an exception of the method
    leaves the extension as the call found it. *)
Definition invoke (m : mover_method) : E unit :=
  x ← this;
  match _pageMover x with
  | Some k => record_mover_call k (Method m)
  | None => mret ()
  end.

(** [buttonConfigs] (lines 60-65). *)
Definition buttonConfigs : list (Ui.ButtonConfig mover_method) :=
  [Ui.mkConfig "First" MoveToFirstPage;
   Ui.mkConfig "<-" MovePageLeft;
   Ui.mkConfig "->" MovePageRight;
   Ui.mkConfig "Last" MoveToLastPage].

(** *** The methods of the extension *)

(** [enable()] (lines 41-76). *)
Definition enable : E unit :=
  log "Extension enabled.";;
  set_pageIndicators None;;
  set_appDisplay None;;
  set_pageMover None;;
  set_rightClickSignalId None;;
  set_rightClickAppDisplaySignalId None;;
  set_menuManager true;;
  set_menu (Some (mkMenu false None []));;
  uiGroup_add_menu;;
  let navigationRow := Ui.createHorizontalButtonRow (Some buttonConfigs) in
  menu_addMenuItem navigationRow;;
  show ← overview_connect Showing;
  set_overviewShowSignalId (Some show);;
  hide ← overview_connect Hiding;
  set_overviewHideSignalId (Some hide).

(** The lookup of the AppDisplay in the idle callback (lines 87-97). *)
Definition find_appDisplay (lk : Lookup) : option nat :=
  let appDisplay :=
    match private_controls lk with
    | Some controls_appDisplay => controls_appDisplay
    | None => None
    end in
  match appDisplay with
  | Some d => Some d
  | None =>
      match controls_appDisplay lk with
      | Some d => Some d
      | None => dash_appDisplay lk
      end
  end.

(** [_initializeAppDisplayListeners()] (lines 112-147). *)
Definition _initializeAppDisplayListeners (lk : Lookup) : E unit :=
  x ← this;
  match _appDisplay x with
  | None => ST_throw TypeError
  | Some appDisplay =>
      let pageIndicators :=
        match appDisplay_pageIndicators lk with
        | Some p => p
        | None =>
            match controls_pageIndicators lk with
            | Some p => p
            | None => appDisplay
            end
        end in
      set_pageIndicators (Some pageIndicators);;
      match _menu x with
      | None => ST_throw TypeError
      | Some m => set_menu (Some (mkMenu (isOpen m) (Some pageIndicators) (items m)))
      end;;
      set_reactive pageIndicators;;
      set_reactive appDisplay;;
      id ← actor_connect pageIndicators IndicatorsPressed;
      set_rightClickSignalId (Some id);;
      id' ← actor_connect appDisplay AppDisplayPressed;
      set_rightClickAppDisplaySignalId (Some id')
  end.

(** The callback [_onOverviewShown] hands to [GLib.idle_add] (lines 86-106). *)
Definition shown_idle_callback (lk : Lookup) : E unit :=
  match find_appDisplay lk with
  | Some appDisplay =>
      set_appDisplay (Some appDisplay);;
      k ← new_PageMover;
      set_pageMover (Some k);;
      _initializeAppDisplayListeners lk
  | None => mret ()
  end.

(** [_onOverviewShown()] (lines 81-107). *)
Definition _onOverviewShown : E unit :=
  x ← this;
  match _appDisplay x with
  | Some _ => mret ()
  | None => GLib_idle_add
  end.

(** [_onOverviewHidden()] (lines 152-176). *)
Definition _onOverviewHidden : E unit :=
  menu_close_if_any;;
  x ← this;
  match _appDisplay x with
  | None => mret ()
  | Some appDisplay =>
      match _rightClickSignalId x, _pageIndicators x with
      | Some id, Some pageIndicators =>
          if id_truthy (Some id) then actor_disconnect pageIndicators id
          else mret ()
      | _, _ => mret ()
      end;;
      match _rightClickAppDisplaySignalId x with
      | Some id =>
          if id_truthy (Some id) then actor_disconnect appDisplay id
          else mret ()
      | None => mret ()
      end;;
      match _pageMover x with
      | Some k => record_mover_call k Destroy
      | None => mret ()
      end;;
      set_pageMover None;;
      set_pageIndicators None;;
      set_appDisplay None;;
      set_rightClickSignalId None;;
      set_rightClickAppDisplaySignalId None
  end.

(** [disable()] (lines 181-201). *)
Definition disable : E unit :=
  log "Extension disabled.";;
  x ← this;
  match _overviewShowSignalId x with
  | Some id =>
      if id_truthy (Some id) then
        overview_disconnect id;;
        set_overviewShowSignalId None
      else mret ()
  | None => mret ()
  end;;
  match _overviewHideSignalId x with
  | Some id =>
      if id_truthy (Some id) then
        overview_disconnect id;;
        set_overviewHideSignalId None
      else mret ()
  | None => mret ()
  end;;
  _onOverviewHidden;;
  x ← this;
  match _menu x with
  | Some _ => menu_actor_destroyed
  | None => mret ()
  end;;
  set_menu None;;
  set_menuManager false.

(** The "button-press-event" callback on the page indicators
    (lines 125-131): its result is whether the event is consumed. *)
Definition indicators_pressed (button : Z) : E bool :=
  if button =? 3 then
    menu_open;;
    mret true
  else mret false.

(** The "button-press-event" callback on the AppDisplay (lines 136-145);
    reading [this._menu.isOpen] is a TypeError when there is no menu. *)
Definition appDisplay_pressed (button : Z) : E bool :=
  x ← this;
  match _menu x with
  | None => ST_throw TypeError
  | Some m =>
      if isOpen m && ((button =? 1) || (button =? 3)) then
        menu_close_if_any;;
        mret true
      else mret false
  end.

(** *** The shell driving the extension *)

Inductive event :=
  | Enable
  | Disable
  | OverviewShowing
  | OverviewHiding
  | Idle (lk : Lookup)
  | Click (i : nat)
  | Press (actor : nat) (button : Z).

(** An exception leaving a callback is reported by the shell. *)
Definition swallow (c : E unit) : E unit := fun st =>
  match c st with
  | (_, st') => (Normal (), st')
  end.

(** [Main.overview] emits a signal: each callback connected for it when the
    emission starts and still connected at its turn runs. *)
Fixpoint emit_overview (s : overview_signal) (snapshot : list (Z * overview_signal))
  : E unit :=
  match snapshot with
  | [] => mret ()
  | (id, s') :: snapshot' =>
      w ← desktop;
      (if connected id (overview_handlers w) then
         match s, s' with
         | Showing, Showing => swallow _onOverviewShown
         | Hiding, Hiding => swallow _onOverviewHidden
         | _, _ => mret ()
         end
       else mret ());;
      emit_overview s snapshot'
  end.

(** A button press on an actor: its callbacks run in connection order
    until one consumes the event. *)
Fixpoint emit_press (actor : nat) (button : Z)
  (snapshot : list (Z * (nat * press_callback))) (st : Fields * Desktop)
  : completion unit * (Fields * Desktop) :=
  match snapshot with
  | [] => (Normal (), st)
  | (id, (actor', cb)) :: snapshot' =>
      if connected id (actor_handlers st.2)
         && bool_decide (actor' = actor) then
        let callback :=
          match cb with
          | IndicatorsPressed => indicators_pressed button
          | AppDisplayPressed => appDisplay_pressed button
          end in
        match callback st with
        | (Normal true, st') => (Normal (), st')
        | (_, st') => emit_press actor button snapshot' st'
        end
      else emit_press actor button snapshot' st
  end.

(** The main loop runs one idle callback queued by [_onOverviewShown] and
    drops its source. *)
Definition dispatch_idle (lk : Lookup) : E unit :=
  w ← desktop;
  match idle_queue w with
  | O => mret ()
  | S n =>
      update_desktop (fun w =>
        mkDesktop (overview_handlers w) (actor_handlers w) (next_signal_id w)
          n (reactive_actors w) (live_menus w) (movers_created w)
          (mover_calls w) (messages w));;
      shown_idle_callback lk
  end.

(** A click on the [i]-th button of the first row of the menu, if the menu
    and the button exist. *)
Definition click (i : nat) : E unit :=
  x ← this;
  match _menu x with
  | Some m =>
      match items m with
      | row :: _ =>
          match Ui.children (Ui.box row) !! i with
          | Some button => Ui.clicked menu_close_if_any invoke button
          | None => mret ()
          end
      | [] => mret ()
      end
  | None => mret ()
  end.

Definition handle (ev : event) : E unit :=
  match ev with
  | Enable => enable
  | Disable => disable
  | OverviewShowing => w ← desktop; emit_overview Showing (overview_handlers w)
  | OverviewHiding => w ← desktop; emit_overview Hiding (overview_handlers w)
  | Idle lk => dispatch_idle lk
  | Click i => click i
  | Press actor button => fun st => emit_press actor button (actor_handlers st.2) st
  end.

Definition step (st : Fields * Desktop) (ev : event) : Fields * Desktop :=
  (handle ev st).2.

Definition run (trace : list event) (st : Fields * Desktop) : Fields * Desktop :=
  fold_left step trace st.

(** The extension object as its constructor leaves it, in a shell where
    nothing of it exists yet. *)
Definition constructed : Fields * Desktop :=
  (mkFields None None None None None None None false None,
   mkDesktop [] [] 1 0 [] 0 0 [] []).

End Extension.

(** * The extension as the caller of PageMover *)

(** The call a button action makes, as an event of the PageMover it is
    made on. *)
Definition method_event (b : Behaviour) (m : Extension.mover_method) : event :=
  match m with
  | Extension.MoveToFirstPage => CallMoveToFirstPage b
  | Extension.MovePageLeft => CallMovePageLeft b
  | Extension.MovePageRight => CallMovePageRight b
  | Extension.MoveToLastPage => CallMoveToLastPage b
  end.

(** The calls the extension made on PageMover number [k], in order. *)
Fixpoint mover_events (b : Behaviour) (k : nat)
  (calls : list (nat * Extension.mover_call)) : list event :=
  match calls with
  | [] => []
  | (k', c) :: calls' =>
      if bool_decide (k' = k) then
        match c with
        | Extension.Construct => mover_events b k calls'
        | Extension.Method m => method_event b m :: mover_events b k calls'
        | Extension.Destroy => CallDestroy b :: mover_events b k calls'
        end
      else mover_events b k calls'
  end.

(** The PageMovers constructed and not destroyed yet, oldest first. *)
Fixpoint undestroyed (calls : list (nat * Extension.mover_call)) (acc : list nat)
  : list nat :=
  match calls with
  | [] => acc
  | (k, Extension.Construct) :: calls' => undestroyed calls' (acc ++ [k])
  | (k, Extension.Destroy) :: calls' =>
      undestroyed calls' (filter (fun k' => k' <> k) acc)
  | _ :: calls' => undestroyed calls' acc
  end.

(** The part of the state the discipline is about: the PageMover held, the
    number constructed and the calls made. *)
Definition mover_view (st : Extension.Fields * Extension.Desktop)
  : option nat * nat * list (nat * Extension.mover_call) :=
  (Extension._pageMover st.1, Extension.movers_created st.2,
   Extension.mover_calls st.2).

(** What the extension's use of PageMovers rests on, over the PageMover
    held, the number constructed and the calls made: calls are made on
    constructed PageMovers only, no PageMover is moved after its
    [destroy()], and the one held has not been destroyed. *)
Definition view_disciplined
  (v : option nat * nat * list (nat * Extension.mover_call)) : Prop :=
  (forall k c, (k, c) ∈ v.2 -> (k < v.1.2)%nat)
  /\ (forall b k, no_move_after_destroy (mover_events b k v.2) = true)
  /\ (forall b k, v.1.1 = Some k ->
        (k < v.1.2)%nat
        /\ forallb (fun ev => negb (is_destroy ev)) (mover_events b k v.2) = true).

Definition mover_discipline (st : Extension.Fields * Extension.Desktop) : Prop :=
  view_disciplined (mover_view st).

(** The ways the extension changes that part. *)
Inductive mover_transition :
  option nat * nat * list (nat * Extension.mover_call) ->
  option nat * nat * list (nat * Extension.mover_call) -> Prop :=
  | mover_dropped held n calls :
      mover_transition (held, n, calls) (None, n, calls)
  | mover_destroyed k n calls :
      mover_transition (Some k, n, calls)
        (None, n, calls ++ [(k, Extension.Destroy)])
  | mover_called k m n calls :
      mover_transition (Some k, n, calls)
        (Some k, n, calls ++ [(k, Extension.Method m)])
  | mover_constructed held n calls :
      mover_transition (held, n, calls)
        (Some n, S n, calls ++ [(n, Extension.Construct)]).

(** * Sessions *)

(** A session is orderly when [enable()] is only called on a disabled
    extension, and the idle callback queued by a 'showing' runs before the
    next 'showing' and before [disable()].  [orderly_end] follows a trace
    with whether the extension is enabled and whether such a callback may
    be pending; [None] means the trace is not orderly. *)
Fixpoint orderly_end (enabled pending : bool) (trace : list Extension.event)
  : option (bool * bool) :=
  match trace with
  | [] => Some (enabled, pending)
  | Extension.Enable :: trace' =>
      if enabled then None else orderly_end true false trace'
  | Extension.Disable :: trace' =>
      if pending then None else orderly_end false false trace'
  | Extension.OverviewShowing :: trace' =>
      if pending then None else orderly_end enabled enabled trace'
  | Extension.Idle _ :: trace' => orderly_end enabled false trace'
  | _ :: trace' => orderly_end enabled pending trace'
  end.

(** The extension has undone what it set up itself: none of its callbacks
    is connected on [Main.overview] or on an actor, no idle callback of
    [_onOverviewShown] is queued, its menu is destroyed, its fields are
    cleared, and [destroy()] has been called on every PageMover it
    constructed.  (The actors it made reactive stay reactive, and what a
    destroyed PageMover still has connected or queued is not the
    extension's.) *)
Definition extension_undone (st : Extension.Fields * Extension.Desktop) : Prop :=
  Extension.overview_handlers st.2 = []
  /\ Extension.actor_handlers st.2 = []
  /\ Extension.idle_queue st.2 = 0%nat
  /\ Extension.live_menus st.2 = 0%nat
  /\ undestroyed (Extension.mover_calls st.2) [] = []
  /\ st.1 = Extension.mkFields None None None None None None None false None.

(** The AppDisplay is not known: no press callback is connected and
    [destroy()] has been called on every PageMover constructed. *)
Definition display_unknown (st : Extension.Fields * Extension.Desktop) : Prop :=
  Extension._appDisplay st.1 = None
  /\ Extension._pageMover st.1 = None
  /\ Extension._pageIndicators st.1 = None
  /\ Extension._rightClickSignalId st.1 = None
  /\ Extension._rightClickAppDisplaySignalId st.1 = None
  /\ Extension.actor_handlers st.2 = []
  /\ undestroyed (Extension.mover_calls st.2) [] = [].

(** The AppDisplay is known: the two press callbacks are connected, the
    PageMover held is the only one [destroy()] has not been called on, and
    no idle callback of [_onOverviewShown] is queued. *)
Definition display_known (st : Extension.Fields * Extension.Desktop) : Prop :=
  exists d k pi i1 i2,
    Extension._appDisplay st.1 = Some d
    /\ Extension._pageMover st.1 = Some k
    /\ Extension._pageIndicators st.1 = Some pi
    /\ Extension._rightClickSignalId st.1 = Some i1
    /\ Extension._rightClickAppDisplaySignalId st.1 = Some i2
    /\ i1 <> 0 /\ i2 <> 0 /\ i1 <> i2
    /\ Extension.actor_handlers st.2
       = [(i1, (pi, Extension.IndicatorsPressed));
          (i2, (d, Extension.AppDisplayPressed))]
    /\ undestroyed (Extension.mover_calls st.2) [] = [k]
    /\ Extension.idle_queue st.2 = 0%nat.

(** What holds while the extension is enabled in an orderly session. *)
Definition while_enabled (pending : bool)
  (st : Extension.Fields * Extension.Desktop) : Prop :=
  (exists a b m,
     Extension._overviewShowSignalId st.1 = Some a
     /\ Extension._overviewHideSignalId st.1 = Some b
     /\ a <> 0 /\ b <> 0 /\ a <> b
     /\ Extension.overview_handlers st.2
        = [(a, Extension.Showing); (b, Extension.Hiding)]
     /\ Extension._menu st.1 = Some m
     /\ Extension.items m
        = [Ui.createHorizontalButtonRow (Some Extension.buttonConfigs)]
     /\ Extension._menuManager st.1 = true)
  /\ Extension.live_menus st.2 = 1%nat
  /\ (Extension.idle_queue st.2 <= (if pending then 1 else 0))%nat
  /\ (display_unknown st \/ display_known st).

Definition session_invariant (enabled pending : bool)
  (st : Extension.Fields * Extension.Desktop) : Prop :=
  0 < Extension.next_signal_id st.2
  /\ if enabled then while_enabled pending st else extension_undone st.

(** * Properties *)

Arguments splice_move : simpl never.
Arguments _normalizePages : simpl never.
Arguments disconnect_listener : simpl never.
Arguments view_loaded_callback : simpl never.
Arguments idle_callback : simpl never.
Arguments emit_to : simpl never.
Arguments emit_view_loaded : simpl never.
Arguments appDisplay_redisplay : simpl never.
Arguments _executeSingleMove : simpl never.
Arguments perform_data_manipulation : simpl never.
Arguments reset_everything : simpl never.
Arguments destroy : simpl never.

(** ** Splicing *)

Section Splice.
Context {A : Type}.
Implicit Types (l items : list A).

Lemma splice_in_range l (start : nat) (count : nat) items :
  (start + count <= length l)%nat ->
  splice l (Z.of_nat start) (Z.of_nat count) items
  = (take count (drop start l), take start l ++ items ++ drop (start + count) l).
Proof.
  intros Hle. unfold splice.
  assert ((Z.of_nat start <? 0) = false) as -> by lia.
  rewrite Z.min_l by lia.
  rewrite Z.max_l by lia.
  rewrite Z.min_l by lia.
  by rewrite !Nat2Z.id.
Qed.

Lemma splice_length l start count items :
  length (splice l start count items).2
  = (length l - length (splice l start count items).1 + length items)%nat.
Proof.
  unfold splice. cbn [fst snd].
  rewrite !length_app, !length_take, !length_drop. lia.
Qed.

Lemma delete_as_take_drop l (i : nat) :
  delete i l = take i l ++ drop (S i) l.
Proof.
  revert i. induction l as [|a l IH]; intros [|i]; cbn; try done.
  by rewrite <- IH.
Qed.
End Splice.

(** Outside the array [splice] clamps: nothing is removed past the end, so
    [undefined] is what gets inserted, and a negative index counts from the
    end. *)
Example splice_move_past_the_end :
  splice_move 7 0 [page_of "A" 0; page_of "B" 0]
  = [PageUndefined; page_of "A" 0; page_of "B" 0].
Proof. reflexivity. Qed.

Example splice_move_negative_target :
  splice_move 0 (-1) [page_of "A" 0; page_of "B" 0; page_of "C" 0]
  = [page_of "B" 0; page_of "A" 0; page_of "C" 0].
Proof. reflexivity. Qed.

Lemma splice_move_in_range (from to : nat) (layout : list page) :
  (from < length layout)%nat ->
  (to < length layout)%nat ->
  splice_move (Z.of_nat from) (Z.of_nat to) layout
  = remove_and_reinsert from to layout.
Proof.
  intros Hfrom Hto. unfold splice_move, remove_and_reinsert.
  destruct (lookup_lt_is_Some_2 layout from Hfrom) as [record Hrec].
  rewrite Hrec.
  change 1 with (Z.of_nat 1). change 0 with (Z.of_nat 0).
  rewrite (splice_in_range layout from 1 []) by (cbn; lia).
  cbn [app].
  rewrite (drop_S layout record from Hrec).
  cbn [take].
  cbn [first_or_undefined].
  replace (from + 1)%nat with (S from) by lia.
  rewrite <- delete_as_take_drop.
  rewrite (splice_in_range (delete from layout) to 0 [record]).
  - cbn [snd app]. by rewrite Nat.add_0_r.
  - rewrite length_delete by (by eexists). lia.
Qed.

(** ** Evaluating computations *)

Ltac unfold_monad :=
  unfold mbind, M_bind, mret, M_ret, throw, try_catch, try_finally, this, shell,
    update_this, update_shell, set_isMoving, set_targetPageIndex,
    set_rearrangedSignalId, logger, GLib_idle_add, lift_result in *.

Ltac unfold_host :=
  unfold appDisplay_connect, appDisplay_disconnect, appDisplay_goToPage,
    pageManager_get_pages, pageManager_set_pages in *.

Ltac evaluate := unfold_host; unfold_monad; cbn in *.

Lemma same_store_refl w : same_store w w.
Proof. by repeat split. Qed.

Lemma same_store_trans w1 w2 w3 :
  same_store w1 w2 -> same_store w2 w3 -> same_store w1 w3.
Proof. unfold same_store. intuition congruence. Qed.

Lemma disconnect_listener_store b st :
  same_store st.2 (disconnect_listener b st).2.2.
Proof.
  destruct st as [[a m t [id|]] w]; unfold disconnect_listener; evaluate;
    [|apply same_store_refl].
  destruct (id =? 0), a; cbn; try apply same_store_refl.
  destruct (disconnect_throws b); cbn; by repeat split.
Qed.

Lemma view_loaded_callback_store b st :
  same_store st.2 (view_loaded_callback b st).2.2.
Proof.
  destruct st as [[a m [t|] [id|]] w]; unfold view_loaded_callback,
    disconnect_listener; evaluate;
    repeat match goal with
      | |- context [if ?c then _ else _] => destruct c; cbn
      end; by repeat split.
Qed.

Lemma emit_to_cons b id snapshot st :
  emit_to b (id :: snapshot) st
  = if bool_decide (id ∈ handlers st.2)
    then emit_to b snapshot (view_loaded_callback b st).2
    else emit_to b snapshot st.
Proof.
  unfold emit_to at 1; fold emit_to. unfold_monad. cbn.
  destruct (bool_decide (id ∈ handlers st.2)); [|done].
  by destruct (view_loaded_callback b st) as [[[]|e] st'].
Qed.

Lemma emit_to_store b snapshot st :
  same_store st.2 (emit_to b snapshot st).2.2.
Proof.
  revert st. induction snapshot as [|id snapshot IH]; intros st.
  - apply same_store_refl.
  - rewrite emit_to_cons.
    destruct (bool_decide (id ∈ handlers st.2)); [|apply IH].
    eapply same_store_trans; [apply view_loaded_callback_store|apply IH].
Qed.

Lemma appDisplay_redisplay_store b st :
  same_store st.2 (appDisplay_redisplay b st).2.2.
Proof.
  unfold appDisplay_redisplay. destruct (redisplay_does b).
  - apply same_store_refl.
  - by repeat split.
  - unfold emit_view_loaded. unfold_monad. cbn.
    match goal with |- context [emit_to b ?l ?st'] =>
      pose proof (emit_to_store b l st') as H end.
    destruct (emit_to _ _ _) as [[[]|e] st'']; cbn in *; exact H.
Qed.

(** What an accepted move leaves in the store: the spliced and normalized
    array if normalization went through, the old layout otherwise. *)
Lemma executeSingleMove_store b s w from to :
  _appDisplay s = true ->
  _isMoving s = false ->
  connect_throws b = false ->
  pages_getter b = GetterArray ->
  setter_throws b = false ->
  pages (_executeSingleMove b from to (s, w)).2.2
  = match _normalizePages (splice_move from to (pages w)) with
    | inr pagesJS => pagesJS
    | inl _ => pages w
    end.
Proof.
  intros Ha Hm Hc Hg Hs. destruct s as [a m t i]. cbn in Ha, Hm. subst a m.
  unfold _executeSingleMove, perform_data_manipulation, reset_everything.
  evaluate. rewrite Hc, Hg. cbn.
  destruct (_normalizePages (splice_move from to (pages w))) as [e|pagesJS]; cbn.
  - match goal with |- context [disconnect_listener b ?st] =>
      pose proof (disconnect_listener_store b st) as H end.
    destruct (disconnect_listener _ _) as [[[]|e'] st']; cbn in *; apply H.
  - rewrite Hs. cbn.
    match goal with |- context [appDisplay_redisplay b ?st] =>
      pose proof (appDisplay_redisplay_store b st) as H end.
    destruct (appDisplay_redisplay _ _) as [[[]|e'] st']; cbn in *.
    + apply H.
    + match goal with |- context [disconnect_listener b ?st] =>
        pose proof (disconnect_listener_store b st) as H' end.
      destruct (disconnect_listener _ _) as [[[]|e''] st'']; cbn in *;
        destruct H as [H _]; destruct H' as [H' _]; cbn in H, H'; congruence.
Qed.

(** ** Normalization *)

Lemma normalizePages_cons pageData pages' :
  _normalizePages (pageData :: pages')
  = match normalize_page pageData with
    | inl e => inl e
    | inr pageData' =>
        match _normalizePages pages' with
        | inl e => inl e
        | inr pages'' => inr (pageData' :: pages'')
        end
    end.
Proof. reflexivity. Qed.

Lemma normalize_properties_wrapped appId p p' :
  normalize_properties p = inr p' -> wrapped_entry (appId, p) (appId, p').
Proof.
  intros H. split; [done|]. destruct p as [|pos rest]; [done|].
  exists pos, rest. split; [done|].
  destruct pos; cbn in H; by inversion H.
Qed.

Lemma normalize_entries_wrapped es es' :
  normalize_entries es = inr es' -> Forall2 wrapped_entry es es'.
Proof.
  revert es'. induction es as [|[appId p] es IH]; intros es' H; cbn in H.
  - inversion H. constructor.
  - destruct (normalize_properties p) as [e|p'] eqn:Hp; [done|].
    destruct (normalize_entries es) as [e|es''] eqn:Hes; [done|].
    inversion H; subst. constructor; [|by apply IH].
    by apply normalize_properties_wrapped.
Qed.

Lemma normalize_page_wrapped p p' :
  normalize_page p = inr p' -> wrapped_page p p'.
Proof.
  destruct p as [|es]; cbn; intros H.
  - by inversion H.
  - destruct (normalize_entries es) as [e|es'] eqn:Hes; [done|].
    inversion H; subst. cbn. by apply normalize_entries_wrapped.
Qed.

Lemma normalizePages_wrapped layout layout' :
  _normalizePages layout = inr layout' -> Forall2 wrapped_page layout layout'.
Proof.
  revert layout'. induction layout as [|p layout IH]; intros layout' H.
  - inversion H. constructor.
  - rewrite normalizePages_cons in H.
    destruct (normalize_page p) as [e|p'] eqn:Hp; [done|].
    destruct (_normalizePages layout) as [e|layout''] eqn:Hl; [done|].
    inversion H; subst. constructor; [|by apply IH].
    by apply normalize_page_wrapped.
Qed.

Lemma wrapped_page_apps p p' : wrapped_page p p' -> page_apps p' = page_apps p.
Proof.
  destruct p as [|es], p' as [|es']; cbn; try done.
  induction 1 as [|e e' es es' [He _] _ IH]; cbn; [done|]. by rewrite He, IH.
Qed.

(** ** Moving a page *)

(** Removing and reinserting rotates the records between the two indices
    by one place. *)
Lemma remove_and_reinsert_forward (from to : nat) layout record :
  layout !! from = Some record ->
  (from <= to < length layout)%nat ->
  remove_and_reinsert from to layout
  = take from layout ++ drop (S from) (take (S to) layout)
      ++ record :: drop (S to) layout.
Proof.
  intros Hrec Hle. unfold remove_and_reinsert. rewrite Hrec.
  rewrite delete_as_take_drop.
  rewrite take_app_ge, drop_app_ge by (rewrite length_take; lia).
  rewrite length_take, Nat.min_l by lia.
  rewrite take_drop_commute, drop_drop, <- app_assoc.
  replace (S from + (to - from))%nat with (S to) by lia.
  by replace (to - from + S from)%nat with (S to) by lia.
Qed.

Lemma remove_and_reinsert_backward (from to : nat) layout record :
  layout !! from = Some record ->
  (to <= from)%nat ->
  remove_and_reinsert from to layout
  = take to layout ++ record :: drop to (take from layout)
      ++ drop (S from) layout.
Proof.
  intros Hrec Hle. unfold remove_and_reinsert. rewrite Hrec.
  pose proof (lookup_lt_Some _ _ _ Hrec) as Hlt.
  rewrite delete_as_take_drop.
  rewrite take_app_le, drop_app_le by (rewrite length_take; lia).
  by rewrite take_take, Nat.min_l by lia.
Qed.

(** C1. In a PageMover that is not busy, with a host that connects, reads
    and writes without raising, a move request [(from, to)] with both
    indices in [0, n-1] makes the two [splice] calls remove the record at
    [from] and reinsert it at [to]; the list handed to the setter is that
    reordered layout, with positions normalized. *)
Theorem executeSingleMove_removes_and_reinserts b s w (from to : Z) layout' :
  _appDisplay s = true ->
  _isMoving s = false ->
  connect_throws b = false ->
  pages_getter b = GetterArray ->
  setter_throws b = false ->
  0 <= from <= Z.of_nat (length (pages w)) - 1 ->
  0 <= to <= Z.of_nat (length (pages w)) - 1 ->
  _normalizePages (remove_and_reinsert (Z.to_nat from) (Z.to_nat to) (pages w))
  = inr layout' ->
  splice_move from to (pages w)
  = remove_and_reinsert (Z.to_nat from) (Z.to_nat to) (pages w)
  /\ pages (_executeSingleMove b from to (s, w)).2.2 = layout'
  /\ Forall2 wrapped_page
       (remove_and_reinsert (Z.to_nat from) (Z.to_nat to) (pages w)) layout'.
Proof.
  intros Ha Hm Hc Hg Hs Hfrom Hto Hnorm.
  assert (splice_move from to (pages w)
          = remove_and_reinsert (Z.to_nat from) (Z.to_nat to) (pages w)) as Hsplice.
  { rewrite <- (Z2Nat.id from), <- (Z2Nat.id to) at 1 by lia.
    apply splice_move_in_range; lia. }
  split; [exact Hsplice|]. split.
  - rewrite executeSingleMove_store by done. by rewrite Hsplice, Hnorm.
  - by apply normalizePages_wrapped.
Qed.

(** Page 4 of [A,B,C,D,E] moved to index 1: [A,E,B,C,D], which is not what
    swapping the two records gives. *)
Lemma executeSingleMove_4_to_1_witness :
  splice_move 4 1 layout_ABCDE
  = [page_of "A" 0; page_of "E" 0; page_of "B" 0; page_of "C" 0; page_of "D" 0]
  /\ pages (_executeSingleMove (cooperative RedisplayDeferred) 4 1
              (constructor, fresh_shell layout_ABCDE 4 5)).2.2
     = [saved_page_of "A" 0; saved_page_of "E" 0; saved_page_of "B" 0;
        saved_page_of "C" 0; saved_page_of "D" 0]
  /\ splice_move 4 1 layout_ABCDE <> swap_two 4 1 layout_ABCDE.
Proof.
  destruct (executeSingleMove_removes_and_reinserts
              (cooperative RedisplayDeferred) constructor
              (fresh_shell layout_ABCDE 4 5) 4 1
              [saved_page_of "A" 0; saved_page_of "E" 0; saved_page_of "B" 0;
               saved_page_of "C" 0; saved_page_of "D" 0]
              eq_refl eq_refl eq_refl eq_refl eq_refl)
    as (Hsplice & Hpages & _).
  - cbn. lia.
  - cbn. lia.
  - reflexivity.
  - split; [exact Hsplice|]. split; [exact Hpages|].
    vm_compute. discriminate.
Defined.

(** ** The busy guard *)

(** C2. While a move is in flight, a further move request (a direct
    [_executeSingleMove] or any of the four public methods) returns
    normally and leaves the object, the layout, the connected listeners and
    the pending target as they are; all it may do is log the debug line of
    the guard. *)
Theorem busy_request_is_dropped b s w from to :
  _isMoving s = true ->
  _executeSingleMove b from to (s, w)
  = (Normal (), (s, (logger Debug MoveInProgress (s, w)).2.2))
  /\ Forall (fun request : M unit =>
       (request (s, w)).1 = Normal ()
       /\ (request (s, w)).2.1 = s
       /\ untouched_but_log w (request (s, w)).2.2)
     [_executeSingleMove b from to; movePageLeft b; movePageRight b;
      moveToFirstPage b; moveToLastPage b].
Proof.
  intros Hbusy.
  assert (forall from to,
    _executeSingleMove b from to (s, w)
    = (Normal (), (s, (logger Debug MoveInProgress (s, w)).2.2))) as Hguard.
  { intros. unfold _executeSingleMove, perform_data_manipulation, reset_everything.
  evaluate. rewrite Hbusy.
    by rewrite orb_true_r. }
  assert (forall from to,
    (_executeSingleMove b from to (s, w)).1 = Normal ()
    /\ (_executeSingleMove b from to (s, w)).2.1 = s
    /\ untouched_but_log w (_executeSingleMove b from to (s, w)).2.2) as Hexec.
  { intros. rewrite Hguard. evaluate. unfold untouched_but_log. cbn.
    repeat split; auto. }
  assert ((Normal (), (s, w)).1 = Normal ()
          /\ (Normal () : completion unit, (s, w)).2.1 = s
          /\ untouched_but_log w (Normal () : completion unit, (s, w)).2.2) as Hskip.
  { cbn. unfold untouched_but_log. tauto. }
  split; [apply Hguard|].
  repeat (apply Forall_cons; split); try apply Forall_nil; try apply Hexec.
  all: unfold movePageLeft, movePageRight, moveToFirstPage, moveToLastPage;
    unfold_monad; cbn [fst snd];
    destruct (negb (_appDisplay s)); try exact Hskip.
  all: try exact I.
  all: match goal with
       | |- context [if ?c then _ else _] => destruct c
       end; [apply Hexec|exact Hskip].
Qed.

Lemma busy_request_is_dropped_witness :
  let st := step (constructor, fresh_shell layout_ABCDE 4 5)
                 (CallMovePageLeft (cooperative RedisplayDeferred)) in
  _isMoving st.1 = true
  /\ (_executeSingleMove (cooperative RedisplayDeferred) 3 0 st).2.1 = st.1
  /\ pages (_executeSingleMove (cooperative RedisplayDeferred) 3 0 st).2.2
     = pages st.2.
Proof.
  cbv zeta.
  set (st := step (constructor, fresh_shell layout_ABCDE 4 5)
                  (CallMovePageLeft (cooperative RedisplayDeferred))).
  assert (_isMoving st.1 = true) as Hbusy by (vm_compute; reflexivity).
  split; [exact Hbusy|].
  destruct (busy_request_is_dropped (cooperative RedisplayDeferred)
              st.1 st.2 3 0 Hbusy) as [Heq _].
  replace (st.1, st.2) with st in Heq by (by destruct st).
  rewrite Heq. split; reflexivity.
Defined.

(** ** Boundaries *)

(** C6. On the first page [movePageLeft] and [moveToFirstPage] return
    without touching the object or the host, and so do [movePageRight] and
    [moveToLastPage] on the last page: no layout is written and the busy
    flag stays as it was. *)
Theorem boundary_moves_do_nothing b s w :
  (currentPage w = 0 ->
   movePageLeft b (s, w) = (Normal (), (s, w))
   /\ moveToFirstPage b (s, w) = (Normal (), (s, w)))
  /\ (currentPage w = nPages w - 1 ->
      movePageRight b (s, w) = (Normal (), (s, w))
      /\ moveToLastPage b (s, w) = (Normal (), (s, w))).
Proof.
  split; intros Hcur;
    unfold movePageLeft, moveToFirstPage, movePageRight, moveToLastPage;
    unfold_monad; cbn [fst snd];
    (destruct (negb (_appDisplay s)); [done|]); cbn [fst snd]; rewrite Hcur.
  - done.
  - by rewrite Z.ltb_irrefl.
Qed.

Lemma boundary_moves_do_nothing_witness :
  movePageLeft (cooperative RedisplayEmits)
    (constructor, fresh_shell layout_ABCDE 0 5)
  = (Normal (), (constructor, fresh_shell layout_ABCDE 0 5))
  /\ moveToLastPage (cooperative RedisplayEmits)
       (constructor, fresh_shell layout_ABCDE 4 5)
     = (Normal (), (constructor, fresh_shell layout_ABCDE 4 5)).
Proof.
  split.
  - apply (boundary_moves_do_nothing (cooperative RedisplayEmits) constructor
             (fresh_shell layout_ABCDE 0 5)). reflexivity.
  - apply (boundary_moves_do_nothing (cooperative RedisplayEmits) constructor
             (fresh_shell layout_ABCDE 4 5)). reflexivity.
Defined.

(** ** Teardown *)

Lemma destroy_clears b s w :
  (destroy b (s, w)).1 = Normal ()
  /\ (destroy b (s, w)).2.1 = mkPageMover (_appDisplay s) false None None.
Proof.
  destruct s as [a m t [id|]]; unfold destroy; evaluate; [|done].
  destruct (id =? 0), a; cbn; try done.
  by destruct (disconnect_throws b).
Qed.








(** ** The idle callback *)

Lemma idle_callback_releases b st :
  (idle_callback b st).1 = Normal () /\ _isMoving (idle_callback b st).2.1 = false.
Proof.
  destruct st as [[a m [t|] i] w]; unfold idle_callback; evaluate; [|done].
  destruct a; cbn; [|done]. by destruct (goToPage_throws b).
Qed.

(** C7. When the idle callback reaches [goToPage] and that call raises, the
    callback still returns normally, the error is logged, nothing is
    recorded as navigated, and both the pending target and the busy flag
    are cleared. *)
Theorem idle_navigation_failure_clears_state b s w target :
  _appDisplay s = true ->
  _targetPageIndex s = Some target ->
  goToPage_throws b = true ->
  (idle_callback b (s, w)).1 = Normal ()
  /\ _targetPageIndex (idle_callback b (s, w)).2.1 = None
  /\ _isMoving (idle_callback b (s, w)).2.1 = false
  /\ _rearrangedSignalId (idle_callback b (s, w)).2.1 = _rearrangedSignalId s
  /\ navigations (idle_callback b (s, w)).2.2 = navigations w
  /\ logged (idle_callback b (s, w)).2.2
     = (Debug, IdleCleaningUp) :: (Error, IdleNavigationError HostError)
         :: (Debug, IdleNavigating target) :: logged w.
Proof.
  intros Ha Ht Hthrow. destruct s as [a m t i]. cbn in Ha, Ht. subst a t.
  unfold idle_callback. evaluate. by rewrite Hthrow.
Qed.

Lemma idle_navigation_failure_witness :
  let b := mkBehaviour false false GetterArray false RedisplayEmits true in
  let st := step (constructor, fresh_shell layout_ABCDE 4 5)
                 (CallMoveToFirstPage (cooperative RedisplayEmits)) in
  _isMoving st.1 = true
  /\ _isMoving (idle_callback b st).2.1 = false
  /\ _targetPageIndex (idle_callback b st).2.1 = None.
Proof.
  cbv zeta.
  set (b := mkBehaviour false false GetterArray false RedisplayEmits true).
  set (st := step (constructor, fresh_shell layout_ABCDE 4 5)
                  (CallMoveToFirstPage (cooperative RedisplayEmits))).
  split; [vm_compute; reflexivity|].
  destruct (idle_navigation_failure_clears_state b st.1 st.2 0)
    as (_ & Ht & Hm & _); try (vm_compute; reflexivity).
  replace (st.1, st.2) with st in Ht, Hm by (by destruct st).
  split; [exact Hm|exact Ht].
Defined.

(** ** A stale notification *)

(** C8. When 'view-loaded' is delivered and the pending target is already
    [null], the callback logs a warning and returns: it queues no idle
    callback, calls neither [goToPage] nor [_redisplay], leaves the layout,
    the busy flag and the pending target as they are, and with no listener
    id recorded leaves the object and the signal table untouched.  It
    returns normally unless a listener id is still recorded and the host
    refuses to disconnect it. *)
Theorem stale_view_loaded_is_ignored b s w :
  _targetPageIndex s = None ->
  _rearrangedSignalId s = None \/ disconnect_throws b = false ->
  (view_loaded_callback b (s, w)).1 = Normal ()
  /\ navigations (view_loaded_callback b (s, w)).2.2 = navigations w
  /\ idle_sources (view_loaded_callback b (s, w)).2.2 = idle_sources w
  /\ redisplays (view_loaded_callback b (s, w)).2.2 = redisplays w
  /\ pages (view_loaded_callback b (s, w)).2.2 = pages w
  /\ _isMoving (view_loaded_callback b (s, w)).2.1 = _isMoving s
  /\ _targetPageIndex (view_loaded_callback b (s, w)).2.1 = None
  /\ logged (view_loaded_callback b (s, w)).2.2
     = (Warn, StateAlreadyCleared) :: logged w
  /\ (_rearrangedSignalId s = None ->
      (view_loaded_callback b (s, w)).2.1 = s
      /\ handlers (view_loaded_callback b (s, w)).2.2 = handlers w).
Proof.
  intros Ht Hid. destruct s as [a m t [id|]]; cbn in Ht; subst t;
    unfold view_loaded_callback, disconnect_listener; evaluate.
  - destruct Hid as [Hid|Hid]; [done|]. rewrite Hid.
    destruct (id =? 0), a; cbn; repeat split; done.
  - repeat split; done.
Qed.

Lemma stale_view_loaded_witness :
  let st := step (step (constructor, fresh_shell layout_ABCDE 4 5)
                       (CallMoveToFirstPage (cooperative RedisplayDeferred)))
                 (CallDestroy (cooperative RedisplayDeferred)) in
  _targetPageIndex st.1 = None
  /\ (view_loaded_callback (cooperative RedisplayDeferred) st).1 = Normal ()
  /\ navigations (view_loaded_callback (cooperative RedisplayDeferred) st).2.2 = []
  /\ (view_loaded_callback (cooperative RedisplayDeferred) st).2.1 = st.1.
Proof.
  cbv zeta.
  set (st := step (step (constructor, fresh_shell layout_ABCDE 4 5)
                        (CallMoveToFirstPage (cooperative RedisplayDeferred)))
                  (CallDestroy (cooperative RedisplayDeferred))).
  assert (_targetPageIndex st.1 = None) as Ht by (vm_compute; reflexivity).
  assert (_rearrangedSignalId st.1 = None) as Hid by (vm_compute; reflexivity).
  split; [exact Ht|].
  destruct (stale_view_loaded_is_ignored (cooperative RedisplayDeferred)
              st.1 st.2 Ht (or_introl Hid))
    as (Hc & Hn & _ & _ & _ & _ & _ & _ & Hsame).
  replace (st.1, st.2) with st in Hc, Hn, Hsame by (by destruct st).
  split; [exact Hc|]. split; [rewrite Hn; vm_compute; reflexivity|].
  apply (Hsame Hid).
Defined.

(** ** Failure of the store mutation *)

(** C4. When an accepted move fails while reading, splicing, normalizing or
    writing the layout, and the host disconnects the listener it has just
    connected, [_executeSingleMove] returns normally with the error logged,
    the listener removed from the signal table, no listener id, no pending
    target and the busy flag false; it does not write, redisplay, navigate
    or queue anything. *)
Theorem mutation_failure_returns_to_idle b s w from to e :
  _appDisplay s = true ->
  _isMoving s = false ->
  connect_throws b = false ->
  disconnect_throws b = false ->
  next_handler_id w <> 0 ->
  mutation_failure b from to w = Some e ->
  (_executeSingleMove b from to (s, w)).1 = Normal ()
  /\ (_executeSingleMove b from to (s, w)).2.1 = mkPageMover true false None None
  /\ (next_handler_id w ∉ handlers (_executeSingleMove b from to (s, w)).2.2)
  /\ handlers (_executeSingleMove b from to (s, w)).2.2
     = filter (fun i => i <> next_handler_id w) (handlers w)
  /\ logged (_executeSingleMove b from to (s, w)).2.2
     = (Error, SaveFailed e) :: (Debug, MoveRequested from to) :: logged w
  /\ pages (_executeSingleMove b from to (s, w)).2.2 = pages w
  /\ redisplays (_executeSingleMove b from to (s, w)).2.2 = redisplays w
  /\ idle_sources (_executeSingleMove b from to (s, w)).2.2 = idle_sources w
  /\ navigations (_executeSingleMove b from to (s, w)).2.2 = navigations w.
Proof.
  intros Ha Hm Hc Hd Hid Hfail. destruct s as [a m t i]. cbn in Ha, Hm. subst a m.
  assert (filter (fun i => i <> next_handler_id w)
                 (handlers w ++ [next_handler_id w])
          = filter (fun i => i <> next_handler_id w) (handlers w)) as Hfilter.
  { rewrite filter_app. cbn. rewrite decide_False by (intros H; by apply H).
    by rewrite app_nil_r. }
  assert (next_handler_id w
          ∉ filter (fun i => i <> next_handler_id w) (handlers w)) as Hgone.
  { rewrite list_elem_of_filter. tauto. }
  assert ((next_handler_id w =? 0) = false) as Hnz by lia.
  unfold mutation_failure in Hfail.
  unfold _executeSingleMove, perform_data_manipulation, reset_everything,
    disconnect_listener. evaluate. rewrite Hc. cbn.
  destruct (pages_getter b); cbn.
  - inversion Hfail; subst e. rewrite Hnz. cbn. rewrite Hd. cbn.
    rewrite Hfilter. by repeat split.
  - inversion Hfail; subst e. rewrite Hnz. cbn. rewrite Hd. cbn.
    rewrite Hfilter. by repeat split.
  - destruct (_normalizePages (splice_move from to (pages w))) as [e'|pagesJS];
      cbn.
    + inversion Hfail; subst e'. rewrite Hnz. cbn. rewrite Hd. cbn.
      rewrite Hfilter. by repeat split.
    + destruct (setter_throws b); [|done]. cbn.
      inversion Hfail; subst e. rewrite Hnz. cbn. rewrite Hd. cbn.
      rewrite Hfilter. by repeat split.
Qed.

Lemma mutation_failure_witness :
  let b := mkBehaviour false false GetterArray true RedisplayEmits false in
  let st := _executeSingleMove b 4 0 (constructor, fresh_shell layout_ABCDE 4 5) in
  st.1 = Normal ()
  /\ st.2.1 = constructor
  /\ handlers st.2.2 = []
  /\ pages st.2.2 = layout_ABCDE
  /\ logged st.2.2 = [(Error, SaveFailed HostError); (Debug, MoveRequested 4 0)].
Proof.
  cbv zeta.
  destruct (mutation_failure_returns_to_idle
              (mkBehaviour false false GetterArray true RedisplayEmits false)
              constructor (fresh_shell layout_ABCDE 4 5) 4 0 HostError
              eq_refl eq_refl eq_refl eq_refl)
    as (Hc & Hs & _ & Hh & Hl & Hp & _).
  - discriminate.
  - reflexivity.
  - repeat split; assumption.
Defined.

(** ** End to end *)

Lemma emit_to_nil b st : emit_to b [] st = (Normal (), st).
Proof. reflexivity. Qed.

(** The notification reaching the one live listener of a move in flight:
    the listener is disconnected, its id dropped and one idle callback
    queued. *)
Lemma emit_to_live_listener b id m target p cur n next idle r nav lg :
  id <> 0 ->
  disconnect_throws b = false ->
  emit_to b [id]
    (mkPageMover true m (Some target) (Some id),
     mkShell p cur n [id] next idle r nav lg)
  = (Normal (),
     (mkPageMover true m (Some target) None,
      mkShell p cur n [] next (S idle) r nav
        ((Debug, ViewLoadedReceived target) :: lg))).
Proof.
  intros Hid Hd. assert ((id =? 0) = false) as Hnz by lia.
  rewrite emit_to_cons. cbn [snd handlers].
  rewrite bool_decide_eq_true_2 by apply list_elem_of_here.
  unfold view_loaded_callback, disconnect_listener. evaluate.
  rewrite Hnz. cbn. rewrite Hd. cbn.
  rewrite decide_False by (intros H; by apply H). reflexivity.
Qed.

(** C3. With the layout [[A, B, C]] and the grid on page 2, on a host that
    raises nothing, [moveToFirstPage()] on a new PageMover writes
    [[C, A, B]] (positions normalized) and requests one redisplay.  Once
    'view-loaded' has been delivered (inside [_redisplay()] or later) and
    the idle callback it queues has run, the only navigation made is
    [goToPage(0, false)], and the object is back in its initial, non-busy
    state with nothing connected or queued. *)
Theorem moveToFirstPage_end_to_end w A B C A' B' C' :
  pages w = [A; B; C] ->
  currentPage w = 2 ->
  handlers w = [] ->
  idle_sources w = 0%nat ->
  next_handler_id w <> 0 ->
  normalize_page A = inr A' ->
  normalize_page B = inr B' ->
  normalize_page C = inr C' ->
  let b := cooperative RedisplayDeferred in
  let be := cooperative RedisplayEmits in
  let moved := step (constructor, w) (CallMoveToFirstPage b) in
  let notified := step moved (ViewLoaded b) in
  let finished := step notified (IdleDispatch b) in
  (pages moved.2 = [C'; A'; B']
   /\ redisplays moved.2 = S (redisplays w)
   /\ navigations moved.2 = navigations w
   /\ _isMoving moved.1 = true
   /\ handlers moved.2 = [next_handler_id w])
  /\ (navigations notified.2 = navigations w
      /\ idle_sources notified.2 = 1%nat
      /\ handlers notified.2 = []
      /\ _isMoving notified.1 = true)
  /\ (finished.1 = constructor
      /\ pages finished.2 = [C'; A'; B']
      /\ redisplays finished.2 = S (redisplays w)
      /\ navigations finished.2 = (0, false) :: navigations w
      /\ handlers finished.2 = []
      /\ idle_sources finished.2 = 0%nat)
  /\ (let moved_e := step (constructor, w) (CallMoveToFirstPage be) in
      let finished_e := step moved_e (IdleDispatch be) in
      moved_e.1 = notified.1
      /\ pages moved_e.2 = [C'; A'; B']
      /\ redisplays moved_e.2 = S (redisplays w)
      /\ idle_sources moved_e.2 = 1%nat
      /\ finished_e.1 = constructor
      /\ navigations finished_e.2 = (0, false) :: navigations w
      /\ redisplays finished_e.2 = S (redisplays w)
      /\ handlers finished_e.2 = []
      /\ idle_sources finished_e.2 = 0%nat).
Proof.
  intros Hp Hcur Hh Hidle Hid HA HB HC.
  destruct w as [p cur n h id idle r nav lg]. cbn in Hp, Hcur, Hh, Hidle, Hid.
  subst p cur h idle.
  assert (_normalizePages (splice_move 2 0 [A; B; C]) = inr [C'; A'; B']) as Hn.
  { change (splice_move 2 0 [A; B; C]) with [C; A; B].
    rewrite !normalizePages_cons, HC, HA, HB. reflexivity. }
  assert ((id =? 0) = false) as Hnz by lia.
  assert (bool_decide (id ∈ [id]) = true) as Hin
    by (apply bool_decide_eq_true_2, list_elem_of_here).
  cbv zeta.
  unfold step, handle, moveToFirstPage, dispatch_idle, emit_view_loaded,
    _executeSingleMove, perform_data_manipulation, reset_everything,
    appDisplay_redisplay, cooperative.
  evaluate. rewrite Hn. cbn.
  unfold emit_view_loaded. evaluate.
  rewrite !emit_to_live_listener by done. cbn.
  unfold idle_callback. evaluate.
  repeat split; reflexivity.
Qed.

Lemma moveToFirstPage_end_to_end_witness :
  let b := cooperative RedisplayDeferred in
  let w := fresh_shell [page_of "appA" 0; page_of "appB" 0; page_of "appC" 0] 2 3 in
  let finished :=
    run [CallMoveToFirstPage b; ViewLoaded b; IdleDispatch b] (constructor, w) in
  finished.1 = constructor
  /\ pages finished.2
     = [saved_page_of "appC" 0; saved_page_of "appA" 0; saved_page_of "appB" 0]
  /\ redisplays finished.2 = 1%nat
  /\ navigations finished.2 = [(0, false)].
Proof.
  cbv zeta.
  pose proof (moveToFirstPage_end_to_end
                (fresh_shell [page_of "appA" 0; page_of "appB" 0; page_of "appC" 0] 2 3)
                (page_of "appA" 0) (page_of "appB" 0) (page_of "appC" 0)
                (saved_page_of "appA" 0) (saved_page_of "appB" 0)
                (saved_page_of "appC" 0)
                eq_refl eq_refl eq_refl eq_refl) as H.
  cbv zeta in H.
  destruct H as (_ & _ & (Hs & Hp & Hr & Hn & _) & _);
    try reflexivity; try discriminate.
  repeat split; assumption.
Defined.

(** ** Normalization before the write *)

(** C5. On an accepted move whose host reads and writes without raising,
    the array handed to the setter is the spliced layout in which the
    [position] of every application entry of every page is wrapped if it is
    a number and kept if it is anything else; every other field of an entry
    is kept as it is.  If an entry is [null], normalization raises and
    nothing is written. *)
Theorem written_layout_has_positions_wrapped b s w from to :
  _appDisplay s = true ->
  _isMoving s = false ->
  connect_throws b = false ->
  pages_getter b = GetterArray ->
  setter_throws b = false ->
  match _normalizePages (splice_move from to (pages w)) with
  | inr layout' =>
      pages (_executeSingleMove b from to (s, w)).2.2 = layout'
      /\ Forall2 wrapped_page (splice_move from to (pages w)) layout'
  | inl _ => pages (_executeSingleMove b from to (s, w)).2.2 = pages w
  end.
Proof.
  intros Ha Hm Hc Hg Hs.
  rewrite executeSingleMove_store by done.
  destruct (_normalizePages (splice_move from to (pages w))) as [e|layout'] eqn:Hn;
    [done|].
  split; [done|]. by apply normalizePages_wrapped.
Qed.

Lemma written_layout_witness :
  pages (_executeSingleMove (cooperative RedisplayDeferred) 1 0
           (constructor,
            fresh_shell
              [page_of "A" 3;
               PageObject [("B", PropsObject (PosVariant 7) [("row", PosNumber 2)])]]
              1 2)).2.2
  = [PageObject [("B", PropsObject (PosVariant 7) [("row", PosNumber 2)])];
     saved_page_of "A" 3].
Proof.
  pose proof (written_layout_has_positions_wrapped
                (cooperative RedisplayDeferred) constructor
                (fresh_shell
                   [page_of "A" 3;
                    PageObject
                      [("B", PropsObject (PosVariant 7) [("row", PosNumber 2)])]]
                   1 2) 1 0 eq_refl eq_refl eq_refl eq_refl eq_refl) as H.
  exact (proj1 H).
Defined.

(** A numeric field other than [position] is written back as a plain
    number. *)
Lemma other_numeric_field_not_wrapped :
  _normalizePages
    [PageObject [("A", PropsObject (PosNumber 0) [("row", PosNumber 2)])]]
  = inr [PageObject [("A", PropsObject (PosVariant 0) [("row", PosNumber 2)])]]
  /\ forallb fully_wrapped_page
       [PageObject [("A", PropsObject (PosVariant 0) [("row", PosNumber 2)])]]
     = false.
Proof. split; reflexivity. Qed.

(** ** The listener and the busy flag *)

Lemma emit_to_normal b snapshot st : (emit_to b snapshot st).1 = Normal ().
Proof.
  revert st. induction snapshot as [|id snapshot IH]; intros st; [done|].
  rewrite emit_to_cons. by destruct (bool_decide _).
Qed.

Ltac solve_invariant :=
  unfold live_invariant; cbn;
  repeat split; intros; simplify_eq; try done; try lia.

Lemma view_loaded_callback_live b st id :
  live_invariant st ->
  id ∈ handlers st.2 ->
  live_invariant (view_loaded_callback b st).2.
Proof.
  destruct st as [[a m t i] [p cur n h next idle r nav lg]].
  unfold live_invariant at 1. cbn. intros (H0 & H1 & H2 & H3 & H4 & H5) Hin.
  destruct i as [id'|]; [|subst h; by apply elem_of_nil in Hin].
  destruct (H4 id' eq_refl) as [Hid Hidle].
  destruct m; [|by destruct (H1 eq_refl) as (_ & ? & _)].
  destruct (H2 eq_refl) as [-> Ht]. destruct t as [t|]; [|done]. subst h idle.
  assert ((id' =? 0) = false) as Hnz by lia.
  unfold view_loaded_callback, disconnect_listener. evaluate. rewrite Hnz. cbn.
  destruct (disconnect_throws b); cbn.
  - solve_invariant.
  - rewrite decide_False by (intros H; by apply H). solve_invariant.
Qed.

Lemma emit_to_live b snapshot st :
  live_invariant st -> live_invariant (emit_to b snapshot st).2.
Proof.
  revert st. induction snapshot as [|id snapshot IH]; intros st Hlive; [done|].
  rewrite emit_to_cons.
  destruct (bool_decide (id ∈ handlers st.2)) eqn:Hin; [|by apply IH].
  apply bool_decide_eq_true_1 in Hin.
  apply IH. by eapply view_loaded_callback_live.
Qed.

Lemma appDisplay_redisplay_live b st :
  live_invariant st ->
  live_invariant (appDisplay_redisplay b st).2
  /\ (forall e, (appDisplay_redisplay b st).1 = Abrupt e ->
      (appDisplay_redisplay b st).2 = st).
Proof.
  intros Hlive. unfold appDisplay_redisplay.
  destruct (redisplay_does b); unfold emit_view_loaded; evaluate.
  - done.
  - split; [|done]. destruct st as [s w]. exact Hlive.
  - match goal with |- context [emit_to b ?l ?st'] =>
      pose proof (emit_to_live b l st') as Hemit;
      pose proof (emit_to_normal b l st') as Hnormal end.
    destruct (emit_to _ _ _) as [[[]|e] st'']; cbn in *; [|done].
    split; [|done]. apply Hemit. destruct st as [s w]. exact Hlive.
Qed.

Lemma reset_everything_live b e to next p cur n r nav lg :
  0 < next ->
  live_invariant
    (reset_everything b e
       (mkPageMover true true (Some to) (Some next),
        mkShell p cur n [next] (next + 1) 0 r nav lg)).2.
Proof.
  intros Hpos. assert ((next =? 0) = false) as Hnz by lia.
  unfold reset_everything, disconnect_listener. evaluate. rewrite Hnz. cbn.
  destruct (disconnect_throws b); cbn; [solve_invariant|].
  rewrite decide_False by (intros H; by apply H). solve_invariant.
Qed.

Lemma executeSingleMove_live b from to st :
  live_invariant st -> live_invariant (_executeSingleMove b from to st).2.
Proof.
  destruct st as [[a m t i] [p cur n h next idle r nav lg]].
  intros Hlive. pose proof Hlive as (H0 & H1 & H2 & H3 & H4 & H5). cbn in *.
  unfold _executeSingleMove. evaluate.
  destruct a, m; cbn; try exact Hlive.
  destruct (H1 eq_refl) as (-> & -> & ->). subst h.
  destruct (connect_throws b); cbn; [solve_invariant|].
  unfold perform_data_manipulation. evaluate.
  destruct (pages_getter b); cbn; try by apply reset_everything_live.
  destruct (_normalizePages (splice_move from to p)) as [e|pagesJS]; cbn;
    [by apply reset_everything_live|].
  destruct (setter_throws b); cbn; [by apply reset_everything_live|].
  match goal with |- context [appDisplay_redisplay b ?st'] =>
    destruct (appDisplay_redisplay_live b st') as [Hre Hthrow];
      [solve_invariant|] end.
  destruct (appDisplay_redisplay b _) as [[[]|e] st''] eqn:Hr; cbn in *;
    [exact Hre|].
  rewrite (Hthrow e eq_refl). by apply reset_everything_live.
Qed.

Lemma public_move_live ev st :
  is_move ev = true -> live_invariant st -> live_invariant (step st ev).
Proof.
  intros Hmove Hlive. destruct st as [s w].
  destruct ev as [b|b|b|b|b|b|b|cur' n']; try done; unfold step, handle;
    unfold movePageLeft, movePageRight, moveToFirstPage, moveToLastPage;
    unfold_monad; cbn [fst snd];
    (destruct (negb (_appDisplay s)); [exact Hlive|]); cbn [fst snd];
    match goal with
    | |- context [if ?c then _ else _] => destruct c
    end; try exact Hlive; by apply executeSingleMove_live.
Qed.

Lemma dispatch_idle_live b st :
  live_invariant st -> live_invariant (dispatch_idle b st).2.
Proof.
  destruct st as [[a m t i] [p cur n h next idle r nav lg]].
  intros Hlive. pose proof Hlive as (H0 & H1 & H2 & H3 & H4 & H5). cbn in *.
  unfold dispatch_idle. evaluate.
  destruct idle as [|idle]; [exact Hlive|].
  assert (idle = 0%nat) as -> by lia.
  destruct m; [|by destruct (H1 eq_refl) as (_ & _ & ?)].
  destruct (H2 eq_refl) as [-> Ht]. destruct t as [t|]; [|done].
  destruct i as [id|]; [by destruct (H4 id eq_refl)|]. subst h.
  unfold idle_callback. evaluate.
  destruct (goToPage_throws b); cbn; solve_invariant.
Qed.

Lemma live_step ev st :
  match ev with CallDestroy _ => False | _ => True end ->
  live_invariant st -> live_invariant (step st ev).
Proof.
  intros Hev Hlive.
  destruct ev as [b|b|b|b|b|b|b|cur' n']; try done;
    try (by apply public_move_live).
  - unfold step, handle, emit_view_loaded. unfold_monad. cbn [fst snd].
    by apply emit_to_live.
  - by apply dispatch_idle_live.
Qed.

Lemma destroy_torn_down b st : torn_down (destroy b st).2.
Proof.
  destruct st as [s w]. destruct (destroy_clears b s w) as [_ Hs].
  unfold torn_down. by rewrite Hs.
Qed.

Lemma view_loaded_callback_torn_down b st :
  torn_down st -> torn_down (view_loaded_callback b st).2.
Proof.
  destruct st as [[a m t i] w]. unfold torn_down. cbn.
  intros (-> & -> & ->). unfold view_loaded_callback, disconnect_listener.
  by evaluate.
Qed.

Lemma emit_to_torn_down b snapshot st :
  torn_down st -> torn_down (emit_to b snapshot st).2.
Proof.
  revert st. induction snapshot as [|id snapshot IH]; intros st Hdown; [done|].
  rewrite emit_to_cons. destruct (bool_decide _); [|by apply IH].
  by apply IH, view_loaded_callback_torn_down.
Qed.

Lemma torn_down_step ev st :
  is_move ev = false -> torn_down st -> torn_down (step st ev).
Proof.
  intros Hev Hdown. destruct ev as [b|b|b|b|b|b|b|cur' n']; try done.
  - apply destroy_torn_down.
  - unfold step, handle, emit_view_loaded. unfold_monad. cbn [fst snd].
    by apply emit_to_torn_down.
  - destruct st as [[a m t i] [p cur n h next idle r nav lg]].
    unfold torn_down in *. cbn in Hdown. destruct Hdown as (-> & -> & ->).
    unfold step, handle, dispatch_idle, idle_callback. evaluate.
    by destruct idle.
Qed.

Lemma torn_down_run trace st :
  forallb (fun ev => negb (is_move ev)) trace = true ->
  torn_down st -> torn_down (run trace st).
Proof.
  revert st. induction trace as [|ev trace IH]; intros st Hall Hdown; [done|].
  cbn in Hall. apply andb_prop in Hall as [Hev Hall].
  apply (IH _ Hall), torn_down_step; [|done]. by destruct (is_move ev).
Qed.

Lemma lifetime_run trace st :
  no_move_after_destroy trace = true ->
  live_invariant st ->
  live_invariant (run trace st) \/ torn_down (run trace st).
Proof.
  revert st. induction trace as [|ev trace IH]; intros st Hlife Hlive;
    [by left|].
  destruct ev as [b|b|b|b|b|b|b|cur' n'];
    try (apply IH; [exact Hlife|by apply live_step]).
  right. apply (torn_down_run trace); [exact Hlife|apply destroy_torn_down].
Qed.

Lemma live_run trace st :
  forallb (fun ev => negb (is_destroy ev)) trace = true ->
  live_invariant st -> live_invariant (run trace st).
Proof.
  revert st. induction trace as [|ev trace IH]; intros st Hall Hlive; [done|].
  cbn in Hall. apply andb_prop in Hall as [Hev Hall].
  apply (IH _ Hall), live_step; [|done]. by destruct ev.
Qed.

Lemma fresh_shell_live a p cur n :
  live_invariant (mkPageMover a false None None, fresh_shell p cur n).
Proof. solve_invariant. Qed.

(** C10. Along the life of a PageMover (public moves, 'view-loaded'
    deliveries, idle callbacks and grid changes in any order and with any
    behaviour of the host, then [destroy()], after which only callbacks and
    further [destroy()] calls run), whenever the busy flag is false no
    listener id is recorded; and until [destroy()] is called, none of its
    callbacks is then connected on the AppDisplay either. *)
Theorem listener_only_while_moving_in_lifetime trace a p cur n :
  no_move_after_destroy trace = true ->
  let st := run trace (mkPageMover a false None None, fresh_shell p cur n) in
  listener_only_while_moving st.1
  /\ (forallb (fun ev => negb (is_destroy ev)) trace = true ->
      _isMoving st.1 = false -> handlers st.2 = []).
Proof.
  intros Hlife st. split.
  - destruct (lifetime_run trace _ Hlife (fresh_shell_live a p cur n))
      as [Hlive|Hdown]; fold st in Hlive || fold st in Hdown.
    + intros Hidle. destruct Hlive as (_ & H1 & _).
      by destruct (H1 Hidle) as (_ & ? & _).
    + intros _. by destruct Hdown as (_ & _ & ?).
  - intros Hnone Hidle.
    destruct (live_run trace _ Hnone (fresh_shell_live a p cur n))
      as (_ & H1 & _ & H3 & _). fold st in H1, H3.
    destruct (H1 Hidle) as (_ & Hid & _). by rewrite H3, Hid.
Qed.

Lemma listener_only_while_moving_witness :
  let b := cooperative RedisplayDeferred in
  let st := run [CallMovePageLeft b; ViewLoaded b; CallDestroy b; IdleDispatch b]
                (constructor, fresh_shell layout_ABCDE 4 5) in
  _isMoving st.1 = false /\ _rearrangedSignalId st.1 = None.
Proof.
  cbv zeta. split; [vm_compute; reflexivity|].
  apply (listener_only_while_moving_in_lifetime
           [CallMovePageLeft (cooperative RedisplayDeferred);
            ViewLoaded (cooperative RedisplayDeferred);
            CallDestroy (cooperative RedisplayDeferred);
            IdleDispatch (cooperative RedisplayDeferred)]
           true layout_ABCDE 4 5); vm_compute; reflexivity.
Defined.

(** A PageMover that is used again after [destroy()]: the idle callback of
    the first move is still queued, runs during the second move and clears
    the busy flag while the second listener is recorded and connected.
    This happens when 'view-loaded' is delivered after [_redisplay()] has
    returned, and also when it is emitted inside [_redisplay()] but the
    host refuses the second [disconnect]. *)
Lemma stale_idle_callback_clears_busy_flag :
  let b := cooperative RedisplayDeferred in
  let st := run [CallMovePageLeft b; ViewLoaded b; CallDestroy b;
                 CallMovePageLeft b; IdleDispatch b]
                (constructor, fresh_shell layout_ABCDE 4 5) in
  let be := cooperative RedisplayEmits in
  let refusing := mkBehaviour false true GetterArray false RedisplayEmits false in
  let st' := run [CallMovePageLeft be; CallDestroy be;
                  CallMovePageLeft refusing; IdleDispatch be]
                 (constructor, fresh_shell layout_ABCDE 4 5) in
  (_isMoving st.1 = false
   /\ _rearrangedSignalId st.1 = Some 2
   /\ handlers st.2 = [2]
   /\ ~ listener_only_while_moving st.1)
  /\ (_isMoving st'.1 = false
      /\ _rearrangedSignalId st'.1 = Some 2
      /\ handlers st'.2 = [2]
      /\ ~ listener_only_while_moving st'.1).
Proof.
  cbv zeta. repeat split; try (vm_compute; reflexivity).
  - intros H. specialize (H eq_refl). vm_compute in H. discriminate.
  - intros H. specialize (H eq_refl). vm_compute in H. discriminate.
Qed.

(** * Further properties of the splicing and of the move *)

Lemma remove_and_reinsert_decomposed (l1 l2 : list page) x (from to : nat) :
  from = length l1 ->
  remove_and_reinsert from to (l1 ++ x :: l2)
  = take to (l1 ++ l2) ++ x :: drop to (l1 ++ l2).
Proof.
  intros ->. unfold remove_and_reinsert.
  by rewrite list_lookup_middle, delete_middle.
Qed.

Lemma remove_and_reinsert_inverse (from to : nat) (layout : list page) :
  (from < length layout)%nat ->
  (to < length layout)%nat ->
  remove_and_reinsert to from (remove_and_reinsert from to layout) = layout.
Proof.
  intros Hfrom Hto.
  destruct (lookup_lt_is_Some_2 layout from Hfrom) as [x Hx].
  pose proof (take_drop_middle layout from x Hx) as Hsplit.
  set (l1 := take from layout) in *. set (l2 := drop (S from) layout) in *.
  assert (length l1 = from) as Hlen by (unfold l1; rewrite length_take; lia).
  assert (length (l1 ++ l2) = (length layout - 1)%nat) as Hlen'.
  { rewrite <- Hsplit, !length_app. cbn. lia. }
  rewrite <- Hsplit.
  rewrite (remove_and_reinsert_decomposed l1 l2 x from to) by done.
  rewrite (remove_and_reinsert_decomposed (take to (l1 ++ l2)) (drop to (l1 ++ l2)) x to from)
    by (rewrite length_take; lia).
  rewrite take_drop, <- Hlen. by rewrite take_app_length, drop_app_length.
Qed.

Lemma remove_and_reinsert_length (from to : nat) (layout : list page) :
  (to < length layout)%nat ->
  length (remove_and_reinsert from to layout) = length layout.
Proof.
  intros Hto. unfold remove_and_reinsert.
  destruct (layout !! from) as [x|] eqn:Hx; [|done].
  rewrite length_app. cbn. rewrite length_take, length_drop.
  rewrite length_delete by (by eexists). lia.
Qed.

(** X1. For a layout and two indices inside it, moving the page at [from]
    to [to] and then moving the page at [to] back to [from] gives the
    layout back: the two [splice] calls of a move are undone by the two of
    the opposite move. *)
Theorem splice_move_round_trip (from to : Z) (layout : list page) :
  0 <= from < Z.of_nat (length layout) ->
  0 <= to < Z.of_nat (length layout) ->
  splice_move to from (splice_move from to layout) = layout.
Proof.
  intros Hfrom Hto.
  rewrite <- (Z2Nat.id from), <- (Z2Nat.id to) by lia.
  rewrite (splice_move_in_range (Z.to_nat from) (Z.to_nat to)) by lia.
  rewrite splice_move_in_range
    by (rewrite remove_and_reinsert_length; lia).
  apply remove_and_reinsert_inverse; lia.
Qed.

Lemma splice_move_round_trip_witness :
  splice_move 1 4 (splice_move 4 1 layout_ABCDE) = layout_ABCDE.
Proof.
  apply (splice_move_round_trip 4 1 layout_ABCDE); cbn; lia.
Defined.

(** X2. For indices inside the layout, the two [splice] calls of a move
    only reorder: the result has the same pages, each as often as before,
    and the same length. *)
Theorem splice_move_permutes (from to : Z) (layout : list page) :
  0 <= from < Z.of_nat (length layout) ->
  0 <= to < Z.of_nat (length layout) ->
  splice_move from to layout ≡ₚ layout
  /\ length (splice_move from to layout) = length layout.
Proof.
  intros Hfrom Hto.
  assert (splice_move from to layout ≡ₚ layout) as Hperm.
  { rewrite <- (Z2Nat.id from), <- (Z2Nat.id to) by lia.
    rewrite splice_move_in_range by lia.
    unfold remove_and_reinsert.
    destruct (layout !! Z.to_nat from) as [x|] eqn:Hx; [|done].
    rewrite <- Permutation_middle, take_drop.
    symmetry. by apply delete_Permutation. }
  split; [exact Hperm|]. by rewrite Hperm.
Qed.

Lemma splice_move_permutes_witness :
  splice_move 0 4 layout_ABCDE ≡ₚ layout_ABCDE
  /\ length (splice_move 0 4 layout_ABCDE) = 5%nat.
Proof.
  apply (splice_move_permutes 0 4 layout_ABCDE); cbn; lia.
Defined.

Lemma normalizePages_nil : _normalizePages [] = inr [].
Proof. reflexivity. Qed.

Lemma normalizePages_app l1 l2 l1' l2' :
  _normalizePages l1 = inr l1' ->
  _normalizePages l2 = inr l2' ->
  _normalizePages (l1 ++ l2) = inr (l1' ++ l2').
Proof.
  revert l1'. induction l1 as [|p l1 IH]; intros l1' H1 H2.
  - rewrite normalizePages_nil in H1. by inversion H1.
  - rewrite normalizePages_cons in H1. cbn [app]. rewrite normalizePages_cons.
    destruct (normalize_page p) as [e|p']; [done|].
    destruct (_normalizePages l1) as [e|l1''] eqn:Hl1; [done|].
    inversion H1; subst. by rewrite (IH l1'' eq_refl H2).
Qed.

Lemma normalizePages_take_drop n l l' :
  _normalizePages l = inr l' ->
  _normalizePages (take n l) = inr (take n l')
  /\ _normalizePages (drop n l) = inr (drop n l').
Proof.
  revert n l'. induction l as [|p l IH]; intros n l' H.
  - rewrite normalizePages_nil in H. inversion H. by destruct n.
  - rewrite normalizePages_cons in H.
    destruct (normalize_page p) as [e|p'] eqn:Hp; [done|].
    destruct (_normalizePages l) as [e|l''] eqn:Hl; [done|].
    inversion H; subst. destruct n as [|n]; cbn [take drop].
    + split; [done|]. by rewrite normalizePages_cons, Hp, Hl.
    + destruct (IH n l'' eq_refl) as [Ht Hd]. split; [|done].
      by rewrite normalizePages_cons, Hp, Ht.
Qed.

(** X3. When [from] is at or past the end of the layout, the first
    [splice] removes nothing, [pageToMove] is [undefined], and the second
    [splice] inserts it at [to]: the layout grows by one [undefined] entry,
    [_normalizePages] lets it through, and that longer layout is what the
    setter receives. *)
Theorem move_from_past_the_end_writes_undefined b s w (from to : Z) layout' :
  _appDisplay s = true ->
  _isMoving s = false ->
  connect_throws b = false ->
  pages_getter b = GetterArray ->
  setter_throws b = false ->
  Z.of_nat (length (pages w)) <= from ->
  0 <= to <= Z.of_nat (length (pages w)) ->
  _normalizePages (pages w) = inr layout' ->
  splice_move from to (pages w)
  = take (Z.to_nat to) (pages w) ++ PageUndefined :: drop (Z.to_nat to) (pages w)
  /\ pages (_executeSingleMove b from to (s, w)).2.2
     = take (Z.to_nat to) layout' ++ PageUndefined :: drop (Z.to_nat to) layout'.
Proof.
  intros Ha Hm Hc Hg Hs Hfrom Hto Hn.
  assert (splice_move from to (pages w)
          = take (Z.to_nat to) (pages w) ++ PageUndefined
              :: drop (Z.to_nat to) (pages w)) as Hsplice.
  { unfold splice_move, splice. cbn [fst snd].
    assert ((from <? 0) = false) as -> by lia.
    assert ((to <? 0) = false) as -> by lia.
    rewrite (Z.min_r from) by lia.
    replace (Z.of_nat (length (pages w)) - Z.of_nat (length (pages w))) with 0 by lia.
    rewrite (Z.min_r _ 0) by lia. rewrite Nat2Z.id. cbn [Z.to_nat].
    rewrite Nat.add_0_r, drop_all, take_0, app_nil_r, firstn_all.
    cbn [first_or_undefined app]. rewrite Z.min_l by lia.
    rewrite (Z.max_r 0 0) by lia.
    rewrite Z.min_l by lia. cbn [Z.to_nat]. by rewrite Nat.add_0_r. }
  split; [exact Hsplice|].
  rewrite executeSingleMove_store by done. rewrite Hsplice.
  destruct (normalizePages_take_drop (Z.to_nat to) _ _ Hn) as [Ht Hd].
  erewrite normalizePages_app; [done|exact Ht|].
  by rewrite normalizePages_cons, Hd.
Qed.

Lemma move_from_past_the_end_witness :
  pages (_executeSingleMove (cooperative RedisplayDeferred) 1 0
           (constructor, fresh_shell [] 1 2)).2.2
  = [PageUndefined].
Proof.
  exact (proj2 (move_from_past_the_end_writes_undefined
                  (cooperative RedisplayDeferred) constructor
                  (fresh_shell [] 1 2) 1 0 []
                  eq_refl eq_refl eq_refl eq_refl eq_refl
                  ltac:(cbn; lia) ltac:(cbn; lia) eq_refl)).
Defined.

Lemma swap_two_decomposed (l1 l2 : list page) a b :
  swap_two (S (length l1)) (length l1) (l1 ++ a :: b :: l2) = l1 ++ b :: a :: l2
  /\ swap_two (length l1) (S (length l1)) (l1 ++ a :: b :: l2) = l1 ++ b :: a :: l2.
Proof.
  assert ((l1 ++ a :: b :: l2) !! length l1 = Some a) as Ha
    by (by apply list_lookup_middle).
  assert ((l1 ++ a :: b :: l2) !! S (length l1) = Some b) as Hb.
  { rewrite lookup_app_r by lia. by replace (S (length l1) - length l1)%nat with 1%nat by lia. }
  unfold swap_two. rewrite Ha, Hb. split.
  - rewrite insert_app_r_alt by lia.
    replace (length l1 - length l1)%nat with 0%nat by lia. cbn.
    rewrite insert_app_r_alt by lia.
    by replace (S (length l1) - length l1)%nat with 1%nat by lia.
  - rewrite insert_app_r_alt by lia.
    replace (S (length l1) - length l1)%nat with 1%nat by lia. cbn.
    rewrite insert_app_r_alt by lia.
    by replace (length l1 - length l1)%nat with 0%nat by lia.
Qed.

Lemma remove_and_reinsert_adjacent (l1 l2 : list page) a b :
  remove_and_reinsert (S (length l1)) (length l1) (l1 ++ a :: b :: l2)
  = l1 ++ b :: a :: l2
  /\ remove_and_reinsert (length l1) (S (length l1)) (l1 ++ a :: b :: l2)
     = l1 ++ b :: a :: l2.
Proof.
  split.
  - replace (l1 ++ a :: b :: l2) with ((l1 ++ [a]) ++ b :: l2)
      by (by rewrite <- app_assoc).
    rewrite (remove_and_reinsert_decomposed (l1 ++ [a]) l2 b)
      by (rewrite length_app; cbn; lia).
    rewrite <- !app_assoc. rewrite take_app_length, drop_app_length. done.
  - rewrite (remove_and_reinsert_decomposed l1 (b :: l2) a) by done.
    replace (l1 ++ b :: l2) with ((l1 ++ [b]) ++ l2) by (by rewrite <- app_assoc).
    rewrite (take_app_length' (l1 ++ [b])), (drop_app_length' (l1 ++ [b]))
      by (rewrite length_app; cbn; lia).
    by rewrite <- app_assoc.
Qed.

Lemma adjacent_move_decomposed (l1 l2 : list page) a b :
  splice_move (Z.of_nat (S (length l1))) (Z.of_nat (length l1)) (l1 ++ a :: b :: l2)
  = swap_two (S (length l1)) (length l1) (l1 ++ a :: b :: l2)
  /\ splice_move (Z.of_nat (length l1)) (Z.of_nat (S (length l1))) (l1 ++ a :: b :: l2)
     = swap_two (length l1) (S (length l1)) (l1 ++ a :: b :: l2).
Proof.
  assert (length (l1 ++ a :: b :: l2) = S (S (length l1 + length l2))) as Hlen
    by (rewrite length_app; cbn; lia).
  destruct (swap_two_decomposed l1 l2 a b) as [-> ->].
  destruct (remove_and_reinsert_adjacent l1 l2 a b) as [H1 H2].
  split; rewrite splice_move_in_range by lia; done.
Qed.

Lemma adjacent_split (layout : list page) (i : nat) :
  (S i < length layout)%nat ->
  exists l1 a b l2, layout = l1 ++ a :: b :: l2 /\ length l1 = i.
Proof.
  intros Hlt.
  destruct (lookup_lt_is_Some_2 layout i ltac:(lia)) as [a Ha].
  destruct (lookup_lt_is_Some_2 layout (S i) Hlt) as [b Hb].
  exists (take i layout), a, b, (drop (S (S i)) layout). split.
  - rewrite <- (take_drop_middle layout i a Ha) at 1.
    by rewrite (drop_S layout b (S i) Hb).
  - rewrite length_take. lia.
Qed.

(** X4. A move by one place is a swap: for [movePageLeft] and
    [movePageRight], which move the current page to the index next to it,
    removing and reinserting equals exchanging the two neighbouring
    pages. *)
Theorem adjacent_move_is_a_swap (current : Z) (layout : list page) :
  (0 < current < Z.of_nat (length layout) ->
   splice_move current (current - 1) layout
   = swap_two (Z.to_nat current) (Z.to_nat (current - 1)) layout)
  /\ (0 <= current < Z.of_nat (length layout) - 1 ->
      splice_move current (current + 1) layout
      = swap_two (Z.to_nat current) (Z.to_nat (current + 1)) layout).
Proof.
  split; intros Hcur.
  - destruct (adjacent_split layout (Z.to_nat (current - 1)) ltac:(lia))
      as (l1 & a & b & l2 & -> & Hlen).
    replace current with (Z.of_nat (S (length l1))) by lia.
    replace (Z.of_nat (S (length l1)) - 1) with (Z.of_nat (length l1)) by lia.
    rewrite !Nat2Z.id. apply adjacent_move_decomposed.
  - destruct (adjacent_split layout (Z.to_nat current) ltac:(lia))
      as (l1 & a & b & l2 & -> & Hlen).
    replace current with (Z.of_nat (length l1)) by lia.
    replace (Z.of_nat (length l1) + 1) with (Z.of_nat (S (length l1))) by lia.
    rewrite !Nat2Z.id. apply adjacent_move_decomposed.
Qed.

Lemma adjacent_move_is_a_swap_witness :
  splice_move 2 1 layout_ABCDE = swap_two 2 1 layout_ABCDE
  /\ splice_move 2 3 layout_ABCDE = swap_two 2 3 layout_ABCDE.
Proof.
  split.
  - apply (proj1 (adjacent_move_is_a_swap 2 layout_ABCDE)). cbn. lia.
  - apply (proj2 (adjacent_move_is_a_swap 2 layout_ABCDE)). cbn. lia.
Defined.

(** ** Normalization, continued *)

Lemma normalize_properties_idempotent p p' :
  normalize_properties p = inr p' -> normalize_properties p' = inr p'.
Proof.
  destruct p as [|[n|n|tag] rest]; cbn; intros H; inversion H; done.
Qed.

Lemma normalize_entries_idempotent es es' :
  normalize_entries es = inr es' -> normalize_entries es' = inr es'.
Proof.
  revert es'. induction es as [|[appId p] es IH]; intros es' H; cbn in H.
  - by inversion H.
  - destruct (normalize_properties p) as [e|p'] eqn:Hp; [done|].
    destruct (normalize_entries es) as [e|es''] eqn:Hes; [done|].
    inversion H; subst. cbn.
    by rewrite (normalize_properties_idempotent _ _ Hp), (IH _ eq_refl).
Qed.

Lemma normalize_page_idempotent p p' :
  normalize_page p = inr p' -> normalize_page p' = inr p'.
Proof.
  destruct p as [|es]; cbn; intros H; [by inversion H|].
  destruct (normalize_entries es) as [e|es'] eqn:Hes; [done|].
  inversion H; subst. cbn. by rewrite (normalize_entries_idempotent _ _ Hes).
Qed.

(** X5. [_normalizePages] gives a fixed point: normalizing a layout it has
    already normalized succeeds and changes nothing. *)
Theorem normalizePages_idempotent layout layout' :
  _normalizePages layout = inr layout' ->
  _normalizePages layout' = inr layout'.
Proof.
  revert layout'. induction layout as [|p layout IH]; intros layout' H.
  - rewrite normalizePages_nil in H. by inversion H.
  - rewrite normalizePages_cons in H.
    destruct (normalize_page p) as [e|p'] eqn:Hp; [done|].
    destruct (_normalizePages layout) as [e|layout''] eqn:Hl; [done|].
    inversion H; subst. rewrite normalizePages_cons.
    by rewrite (normalize_page_idempotent _ _ Hp), (IH _ eq_refl).
Qed.

Lemma normalizePages_idempotent_witness :
  _normalizePages [saved_page_of "A" 3; PageUndefined]
  = inr [saved_page_of "A" 3; PageUndefined].
Proof.
  apply (normalizePages_idempotent [page_of "A" 3; PageUndefined]). reflexivity.
Defined.

Lemma normalize_entries_fails es :
  (exists e, normalize_entries es = inl e)
  <-> existsb (fun e => match e.2 with PropsNull => true | _ => false end) es = true.
Proof.
  induction es as [|[appId p] es IH]; cbn.
  - split; [by intros [e ?]|done].
  - destruct p as [|pos rest]; cbn.
    + split; [done|]. intros _. by exists TypeError.
    + assert (normalize_properties (PropsObject pos rest)
              = inr (PropsObject (wrap_position pos) rest)) as Hp
        by (by destruct pos).
      cbn in Hp. rewrite Hp. rewrite <- IH.
      destruct (normalize_entries es) as [e|es']; split; intros [e' H];
        try done; by exists e'.
Qed.

Lemma normalize_entries_error es e :
  normalize_entries es = inl e -> e = TypeError.
Proof.
  induction es as [|[appId p] es IH]; cbn; [done|].
  destruct p as [|pos rest]; cbn; [by intros [= <-]|].
  assert (normalize_properties (PropsObject pos rest)
          = inr (PropsObject (wrap_position pos) rest)) as Hp by (by destruct pos).
  cbn in Hp. rewrite Hp.
  destruct (normalize_entries es) as [e'|es']; [|done]. intros [= <-]. by apply IH.
Qed.

(** X6. [_normalizePages] raises a TypeError exactly when some application
    entry of some page is [null] or [undefined] (it reads [.position] of
    it); on every other layout it succeeds. *)
Theorem normalizePages_fails_on_null_entry layout :
  (has_null_entry layout = true -> _normalizePages layout = inl TypeError)
  /\ (has_null_entry layout = false ->
      exists layout', _normalizePages layout = inr layout').
Proof.
  induction layout as [|p layout [IHt IHf]].
  - split; [done|]. intros _. by exists [].
  - rewrite normalizePages_cons. unfold has_null_entry in *. cbn [existsb].
    destruct p as [|es]; cbn [normalize_page].
    + cbn [orb]. split.
      * intros H. by rewrite (IHt H).
      * intros H. destruct (IHf H) as [layout' ->]. by eexists.
    + pose proof (normalize_entries_fails es) as Hes.
      pose proof (normalize_entries_error es) as Herr.
      destruct (existsb _ es) eqn:Hnull; cbn [orb].
      * split; [|done]. intros _.
        destruct (proj2 Hes eq_refl) as [e He]. rewrite He.
        by rewrite (Herr e He).
      * destruct (normalize_entries es) as [e|es'] eqn:He.
        { pose proof (proj1 Hes (ex_intro _ e eq_refl)) as Hc. congruence. }
        split.
        -- intros H. by rewrite (IHt H).
        -- intros H. destruct (IHf H) as [layout' ->]. by eexists.
Qed.

Lemma normalizePages_fails_on_null_entry_witness :
  _normalizePages [page_of "A" 0; PageObject [("B", PropsNull)]] = inl TypeError
  /\ exists layout', _normalizePages layout_ABCDE = inr layout'.
Proof.
  split.
  - apply (proj1 (normalizePages_fails_on_null_entry
                    [page_of "A" 0; PageObject [("B", PropsNull)]])).
    reflexivity.
  - apply (proj2 (normalizePages_fails_on_null_entry layout_ABCDE)). reflexivity.
Defined.

(** ** Failures outside the guarded block *)

Lemma executeSingleMove_when_busy b s w from to :
  _isMoving s = true ->
  (_executeSingleMove b from to (s, w)).1 = Normal ()
  /\ (_executeSingleMove b from to (s, w)).2.1 = s
  /\ no_host_effect w (_executeSingleMove b from to (s, w)).2.2.
Proof.
  intros Hbusy. unfold _executeSingleMove. evaluate. rewrite Hbusy, orb_true_r.
  cbn. unfold no_host_effect. cbn. tauto.
Qed.



(** X8. The [catch] block of [_executeSingleMove] calls [disconnect]
    before it clears the state: when reading or writing the layout fails
    and that [disconnect] raises too, the exception leaves the method with
    the busy flag, the target and the listener id still set and the
    listener still connected. *)
Theorem refused_disconnect_leaves_busy b s w from to e :
  _appDisplay s = true ->
  _isMoving s = false ->
  connect_throws b = false ->
  disconnect_throws b = true ->
  next_handler_id w <> 0 ->
  mutation_failure b from to w = Some e ->
  (_executeSingleMove b from to (s, w)).1 = Abrupt HostError
  /\ (_executeSingleMove b from to (s, w)).2.1
     = mkPageMover true true (Some to) (Some (next_handler_id w))
  /\ handlers (_executeSingleMove b from to (s, w)).2.2
     = handlers w ++ [next_handler_id w]
  /\ pages (_executeSingleMove b from to (s, w)).2.2 = pages w
  /\ logged (_executeSingleMove b from to (s, w)).2.2
     = (Error, SaveFailed e) :: (Debug, MoveRequested from to) :: logged w.
Proof.
  intros Ha Hm Hc Hd Hid Hfail. destruct s as [a m t i]. cbn in Ha, Hm. subst a m.
  assert ((next_handler_id w =? 0) = false) as Hnz by lia.
  unfold mutation_failure in Hfail.
  unfold _executeSingleMove, perform_data_manipulation, reset_everything,
    disconnect_listener. evaluate. rewrite Hc. cbn.
  destruct (pages_getter b); cbn.
  - inversion Hfail; subst e. rewrite Hnz. cbn. by rewrite Hd.
  - inversion Hfail; subst e. rewrite Hnz. cbn. by rewrite Hd.
  - destruct (_normalizePages (splice_move from to (pages w))) as [e'|pagesJS];
      cbn.
    + inversion Hfail; subst e'. rewrite Hnz. cbn. by rewrite Hd.
    + destruct (setter_throws b); [|done]. cbn.
      inversion Hfail; subst e. rewrite Hnz. cbn. by rewrite Hd.
Qed.

Lemma refused_disconnect_witness :
  let b := mkBehaviour false true GetterThrows false RedisplayEmits false in
  let r := _executeSingleMove b 4 0 (constructor, fresh_shell layout_ABCDE 4 5) in
  r.1 = Abrupt HostError /\ _isMoving r.2.1 = true /\ handlers r.2.2 = [1].
Proof.
  cbv zeta.
  destruct (refused_disconnect_leaves_busy
              (mkBehaviour false true GetterThrows false RedisplayEmits false)
              constructor (fresh_shell layout_ABCDE 4 5) 4 0 HostError
              eq_refl eq_refl eq_refl eq_refl ltac:(discriminate) eq_refl)
    as (Hc & Hs & Hh & _).
  split; [exact Hc|]. split; [by rewrite Hs|exact Hh].
Defined.

(** ** A move in flight without its notification *)

Lemma public_move_when_busy ev st :
  is_move ev = true ->
  _isMoving st.1 = true ->
  (step st ev).1 = st.1 /\ no_host_effect st.2 (step st ev).2.
Proof.
  intros Hmove Hbusy. destruct st as [s w]. cbn in Hbusy.
  assert (forall b from to,
    (_executeSingleMove b from to (s, w)).2.1 = s
    /\ no_host_effect w (_executeSingleMove b from to (s, w)).2.2) as Hexec.
  { intros. by destruct (executeSingleMove_when_busy b s w from to Hbusy) as (_ & ? & ?). }
  assert (no_host_effect w w) as Hrefl by (unfold no_host_effect; tauto).
  destruct ev as [b|b|b|b|b|b|b|cur' n']; try done; unfold step, handle;
    unfold movePageLeft, movePageRight, moveToFirstPage, moveToLastPage;
    unfold_monad; cbn [fst snd];
    (destruct (negb (_appDisplay s)); [done|]); cbn [fst snd];
    match goal with
    | |- context [if ?c then _ else _] => destruct c
    end; try done; apply Hexec.
Qed.

(** X9. Only the host ends a move: while a move is in flight and no idle
    callback is queued, any sequence of move requests, idle dispatches and
    grid changes leaves the object as it is and reaches the host for
    nothing but log lines; the busy flag stays set until 'view-loaded' or
    [destroy()]. *)
Theorem busy_until_notified trace st :
  _isMoving st.1 = true ->
  idle_sources st.2 = 0%nat ->
  forallb is_quiet trace = true ->
  (run trace st).1 = st.1 /\ no_host_effect st.2 (run trace st).2.
Proof.
  revert st. induction trace as [|ev trace IH]; intros st Hbusy Hidle Hquiet.
  - split; [done|]. unfold no_host_effect. tauto.
  - cbn in Hquiet. apply andb_prop in Hquiet as [Hev Hquiet].
    assert ((step st ev).1 = st.1 /\ no_host_effect st.2 (step st ev).2)
      as [Hs Hw].
    { destruct (is_move ev) eqn:Hmove; [by apply public_move_when_busy|].
      destruct st as [s w]. cbn in Hidle.
      destruct ev as [b|b|b|b|b|b|b|cur' n']; try done.
      - unfold step, handle, dispatch_idle. evaluate. rewrite Hidle.
        split; [done|]. unfold no_host_effect. tauto. }
    change (run (ev :: trace) st) with (run trace (step st ev)).
    destruct (IH (step st ev)) as [Hs' Hw']; try done.
    + by rewrite Hs.
    + destruct Hw as (_ & _ & _ & -> & _). done.
    + split; [by rewrite Hs'|].
      unfold no_host_effect in *. intuition congruence.
Qed.

Lemma busy_until_notified_witness :
  let b := cooperative RedisplayDeferred in
  let st := step (constructor, fresh_shell layout_ABCDE 4 5) (CallMovePageLeft b) in
  let st' := run [CallMoveToFirstPage b; IdleDispatch b; GridChanged 0 5;
                  CallMovePageRight b] st in
  st'.1 = st.1 /\ _isMoving st'.1 = true /\ pages st'.2 = pages st.2.
Proof.
  cbv zeta.
  destruct (busy_until_notified
              [CallMoveToFirstPage (cooperative RedisplayDeferred);
               IdleDispatch (cooperative RedisplayDeferred); GridChanged 0 5;
               CallMovePageRight (cooperative RedisplayDeferred)]
              (step (constructor, fresh_shell layout_ABCDE 4 5)
                    (CallMovePageLeft (cooperative RedisplayDeferred))))
    as [Hs (Hp & _)]; try (vm_compute; reflexivity).
  split; [exact Hs|]. split; [|exact Hp]. rewrite Hs. vm_compute. reflexivity.
Defined.

(** ** After destroy() *)

Lemma no_store_or_view_effect_refl w : no_store_or_view_effect w w.
Proof. by repeat split. Qed.

Lemma no_store_or_view_effect_trans w1 w2 w3 :
  no_store_or_view_effect w1 w2 -> no_store_or_view_effect w2 w3 ->
  no_store_or_view_effect w1 w3.
Proof. unfold no_store_or_view_effect. intuition congruence. Qed.

(** The 'view-loaded' callback never writes the layout, never redisplays
    and never navigates, whatever the state. *)
Lemma view_loaded_callback_no_effect b st :
  no_store_or_view_effect st.2 (view_loaded_callback b st).2.2.
Proof.
  destruct st as [[a m [t|] [id|]] w]; unfold view_loaded_callback,
    disconnect_listener; evaluate;
    repeat match goal with
      | |- context [if ?c then _ else _] => destruct c; cbn
      end; by repeat split.
Qed.

Lemma emit_to_no_effect b snapshot st :
  no_store_or_view_effect st.2 (emit_to b snapshot st).2.2.
Proof.
  revert st. induction snapshot as [|id snapshot IH]; intros st.
  - apply no_store_or_view_effect_refl.
  - rewrite emit_to_cons.
    destruct (bool_decide (id ∈ handlers st.2)); [|apply IH].
    eapply no_store_or_view_effect_trans;
      [apply view_loaded_callback_no_effect|apply IH].
Qed.

Lemma destroy_no_effect b st : no_store_or_view_effect st.2 (destroy b st).2.2.
Proof.
  destruct st as [[a m t [id|]] w]; unfold destroy; evaluate;
    [|by repeat split].
  destruct (id =? 0), a; cbn; try by repeat split.
  destruct (disconnect_throws b); cbn; by repeat split.
Qed.

Lemma torn_down_step_no_effect ev st :
  is_move ev = false -> torn_down st ->
  no_store_or_view_effect st.2 (step st ev).2.
Proof.
  intros Hev Hdown. destruct ev as [b|b|b|b|b|b|b|cur' n']; try done.
  - apply destroy_no_effect.
  - unfold step, handle, emit_view_loaded. unfold_monad. cbn [fst snd].
    apply emit_to_no_effect.
  - destruct st as [[a m t i] [p cur n h next idle r nav lg]].
    unfold torn_down in *. cbn in Hdown. destruct Hdown as (-> & -> & ->).
    unfold step, handle, dispatch_idle, idle_callback. evaluate.
    destruct idle; by repeat split.
Qed.

Lemma torn_down_run_no_effect trace st :
  forallb (fun ev => negb (is_move ev)) trace = true ->
  torn_down st ->
  no_store_or_view_effect st.2 (run trace st).2.
Proof.
  revert st. induction trace as [|ev trace IH]; intros st Hall Hdown.
  - apply no_store_or_view_effect_refl.
  - cbn in Hall. apply andb_prop in Hall as [Hev Hall].
    assert (is_move ev = false) as Hev' by (by destruct (is_move ev)).
    change (run (ev :: trace) st) with (run trace (step st ev)).
    eapply no_store_or_view_effect_trans;
      [by apply torn_down_step_no_effect|].
    apply IH; [done|]. by apply torn_down_step.
Qed.

(** X10. After [destroy()] nothing of a move in flight reaches the grid:
    whatever was connected or queued before, and whatever signals and idle
    dispatches follow, as long as no new move is requested the layout is
    not written again, no [goToPage] and no [_redisplay] is called, and
    the object stays cleared. *)
Theorem destroy_cancels_pending_navigation b trace st :
  forallb (fun ev => negb (is_move ev)) trace = true ->
  no_store_or_view_effect st.2 (run (CallDestroy b :: trace) st).2
  /\ torn_down (run (CallDestroy b :: trace) st).
Proof.
  intros Hall.
  change (run (CallDestroy b :: trace) st)
    with (run trace (step st (CallDestroy b))).
  pose proof (destroy_torn_down b st) as Hdown.
  split.
  - eapply no_store_or_view_effect_trans; [apply destroy_no_effect|].
    by apply torn_down_run_no_effect.
  - by apply torn_down_run.
Qed.

Lemma destroy_cancels_pending_navigation_witness :
  let b := cooperative RedisplayDeferred in
  let st := run [CallMoveToLastPage b; ViewLoaded b]
                (constructor, fresh_shell layout_ABCDE 0 5) in
  let st' := run [CallDestroy b; IdleDispatch b; ViewLoaded b] st in
  idle_sources st.2 = 1%nat
  /\ navigations st'.2 = []
  /\ _isMoving st'.1 = false.
Proof.
  cbv zeta. split; [vm_compute; reflexivity|].
  destruct (destroy_cancels_pending_navigation
              (cooperative RedisplayDeferred)
              [IdleDispatch (cooperative RedisplayDeferred);
               ViewLoaded (cooperative RedisplayDeferred)]
              (run [CallMoveToLastPage (cooperative RedisplayDeferred);
                    ViewLoaded (cooperative RedisplayDeferred)]
                   (constructor, fresh_shell layout_ABCDE 0 5)) eq_refl)
    as [(_ & _ & Hn) (Hm & _)].
  split; [|exact Hm]. rewrite Hn. vm_compute. reflexivity.
Defined.

(** ** Callbacks outstanding *)

(** X11. From construction on, and as long as [destroy()] is not called,
    a PageMover has at most one callback outstanding, a 'view-loaded'
    listener or a queued idle callback but never both, and none at all
    when it is not busy. *)
Theorem at_most_one_callback_outstanding trace a p cur n :
  forallb (fun ev => negb (is_destroy ev)) trace = true ->
  let st := run trace (mkPageMover a false None None, fresh_shell p cur n) in
  (length (handlers st.2) + idle_sources st.2 <= 1)%nat
  /\ (_isMoving st.1 = false -> handlers st.2 = [] /\ idle_sources st.2 = 0%nat).
Proof.
  intros Hnone st.
  destruct (live_run trace _ Hnone (fresh_shell_live a p cur n))
    as (_ & H1 & _ & H3 & H4 & H5). fold st in H1, H3, H4, H5.
  split.
  - rewrite H3. destruct (_rearrangedSignalId st.1) as [id|]; cbn; [|lia].
    destruct (H4 id eq_refl) as [_ ->]. lia.
  - intros Hidle. destruct (H1 Hidle) as (_ & Hid & Hq).
    by rewrite H3, Hid.
Qed.

Lemma at_most_one_callback_outstanding_witness :
  let b := cooperative RedisplayDeferred in
  let st := run [CallMovePageLeft b; ViewLoaded b; ViewLoaded b; CallMovePageLeft b]
                (constructor, fresh_shell layout_ABCDE 4 5) in
  (length (handlers st.2) + idle_sources st.2 <= 1)%nat.
Proof.
  cbv zeta.
  apply (at_most_one_callback_outstanding
           [CallMovePageLeft (cooperative RedisplayDeferred);
            ViewLoaded (cooperative RedisplayDeferred);
            ViewLoaded (cooperative RedisplayDeferred);
            CallMovePageLeft (cooperative RedisplayDeferred)]
           true layout_ABCDE 4 5).
  reflexivity.
Defined.

(** X12. A move in flight navigates once: when 'view-loaded' is emitted
    twice and the main loop then dispatches twice, [goToPage(target,
    false)] is called exactly once, the listener is gone, nothing stays
    queued, the layout is not touched and the object is idle again. *)
Theorem notified_move_navigates_once st target id b1 b2 b3 b4 :
  live_invariant st ->
  _targetPageIndex st.1 = Some target ->
  _rearrangedSignalId st.1 = Some id ->
  disconnect_throws b1 = false ->
  goToPage_throws b3 = false ->
  let st' := run [ViewLoaded b1; ViewLoaded b2; IdleDispatch b3; IdleDispatch b4] st in
  st'.1 = mkPageMover true false None None
  /\ navigations st'.2 = (target, false) :: navigations st.2
  /\ handlers st'.2 = []
  /\ idle_sources st'.2 = 0%nat
  /\ pages st'.2 = pages st.2
  /\ redisplays st'.2 = redisplays st.2.
Proof.
  destruct st as [[a m t i] [p cur n h next idle r nav lg]].
  unfold live_invariant. cbn. intros (H0 & H1 & H2 & H3 & H4 & H5) -> -> Hd Hg.
  destruct (H4 id eq_refl) as [Hid ->]. subst h.
  destruct m; [|by destruct (H1 eq_refl)].
  destruct (H2 eq_refl) as [-> _].
  unfold run, fold_left, step, handle, emit_view_loaded, dispatch_idle.
  evaluate. rewrite emit_to_live_listener by done. cbn.
  rewrite emit_to_nil. cbn.
  unfold idle_callback. evaluate. rewrite Hg. cbn. done.
Qed.

Lemma notified_move_navigates_once_witness :
  let b := cooperative RedisplayDeferred in
  let st := step (constructor, fresh_shell layout_ABCDE 1 5) (CallMoveToLastPage b) in
  let st' := run [ViewLoaded b; ViewLoaded b; IdleDispatch b; IdleDispatch b] st in
  st'.1 = constructor /\ navigations st'.2 = [(4, false)].
Proof.
  cbv zeta.
  pose proof (notified_move_navigates_once
                (step (constructor, fresh_shell layout_ABCDE 1 5)
                      (CallMoveToLastPage (cooperative RedisplayDeferred)))
                4 1
                (cooperative RedisplayDeferred) (cooperative RedisplayDeferred)
                (cooperative RedisplayDeferred) (cooperative RedisplayDeferred)) as H.
  cbv zeta in H. destruct H as (Hs & Hn & _); try reflexivity.
  - vm_compute. repeat split; intros; simplify_eq; try done; lia.
  - split; [exact Hs|]. rewrite Hn. reflexivity.
Defined.

(** * The logger *)

Lemma Logger_getPrefix_cached md st p :
  Logger._prefix st = Some p -> Logger.string_truthy p = true ->
  Logger._getPrefix md st = (p, st).
Proof. intros Hp Ht. unfold Logger._getPrefix. by rewrite Hp, Ht. Qed.

Lemma Logger_perform_keeps_cache c st p :
  Logger._prefix st = Some p -> Logger.string_truthy p = true ->
  Logger._prefix (Logger.perform st c) = Some p.
Proof.
  intros Hp Ht.
  destruct c as [md|m d|m|m|m e]; cbn;
    unfold Logger.constructor, Logger.debug, Logger.info, Logger.warn,
      Logger.error;
    rewrite ?(Logger_getPrefix_cached _ st p Hp Ht); try done.
  - by destruct (_ <? _).
  - by destruct (_ <? _).
  - by destruct (_ <? _).
  - destruct (_ <? _); [done|].
    destruct e as [|msg s [stack|]]; try done.
    by destruct (Logger.string_truthy stack).
Qed.

Lemma Logger_perform_all_keeps_cache calls st p :
  Logger._prefix st = Some p -> Logger.string_truthy p = true ->
  Logger._prefix (Logger.perform_all calls st) = Some p.
Proof.
  revert st. induction calls as [|c calls IH]; intros st Hp Ht; [done|].
  apply IH; [|done]. by apply Logger_perform_keeps_cache.
Qed.

Lemma Logger_getPrefix_uncached st :
  Logger._prefix st = None ->
  Logger._getPrefix None st = ("[UNINITIALIZED LOGGER]", st).
Proof. intros Hp. unfold Logger._getPrefix. by rewrite Hp. Qed.

(** X13. The prefix of the logger module is set once: after any sequence
    of Logger constructions and log calls it is the prefix computed by the
    first construction with a truthy [metadata] (the bracketed name, or
    the fallback when reading the name raised); later constructions do not
    change it, and log calls never set it. *)
Theorem Logger_prefix_is_first_initialization shell_debug calls :
  Logger._prefix (Logger.perform_all calls (Logger.load shell_debug))
  = Logger.first_prefix calls.
Proof.
  generalize (Logger.load shell_debug) (eq_refl : Logger._prefix (Logger.load shell_debug) = None).
  induction calls as [|c calls IH]; intros st Hp; [done|].
  change (Logger.perform_all (c :: calls) st)
    with (Logger.perform_all calls (Logger.perform st c)).
  destruct c as [[[name|e]|]|m d|m|m|m e]; cbn [Logger.first_prefix].
  - apply Logger_perform_all_keeps_cache; [|done].
    cbn. unfold Logger.constructor, Logger._getPrefix. by rewrite Hp.
  - apply Logger_perform_all_keeps_cache; [|done].
    cbn. unfold Logger.constructor, Logger._getPrefix. by rewrite Hp.
  - apply IH. cbn. unfold Logger.constructor, Logger._getPrefix. by rewrite Hp.
  - apply IH. cbn. unfold Logger.debug.
    rewrite (Logger_getPrefix_uncached st Hp). by destruct (_ <? _).
  - apply IH. cbn. unfold Logger.info.
    rewrite (Logger_getPrefix_uncached st Hp). by destruct (_ <? _).
  - apply IH. cbn. unfold Logger.warn.
    rewrite (Logger_getPrefix_uncached st Hp). by destruct (_ <? _).
  - apply IH. cbn. unfold Logger.error.
    rewrite (Logger_getPrefix_uncached st Hp). destruct (_ <? _); [done|].
    destruct e as [|msg s [stack|]]; try done.
    by destruct (Logger.string_truthy stack).
Qed.

Lemma Logger_perform_keeps_level c st :
  Logger.currentLogLevel (Logger.perform st c) = Logger.currentLogLevel st.
Proof.
  assert (forall md st, Logger.currentLogLevel (Logger._getPrefix md st).2
                        = Logger.currentLogLevel st) as Hget.
  { intros md st0. unfold Logger._getPrefix, Logger.initialize_prefix.
    destruct (Logger._prefix st0) as [p|]; [destruct (Logger.string_truthy p)|];
      try done; by destruct md as [[|]|]. }
  destruct c as [md|m d|m|m|m e]; cbn;
    unfold Logger.constructor, Logger.debug, Logger.info, Logger.warn,
      Logger.error; try apply Hget.
  all: destruct (_ <? _); [done|].
  all: pose proof (Hget None st) as H;
    destruct (Logger._getPrefix None st) as [p st']; cbn in *; try done.
  destruct e as [|msg s [stack|]]; try done.
  by destruct (Logger.string_truthy stack).
Qed.

Lemma Logger_perform_all_keeps_level calls st :
  Logger.currentLogLevel (Logger.perform_all calls st) = Logger.currentLogLevel st.
Proof.
  revert st. induction calls as [|c calls IH]; intros st; [done|].
  change (Logger.perform_all (c :: calls) st)
    with (Logger.perform_all calls (Logger.perform st c)).
  by rewrite IH, Logger_perform_keeps_level.
Qed.

Lemma Logger_level_of_load shell_debug :
  Logger.currentLogLevel (Logger.load shell_debug)
  = if Logger.debug_mode shell_debug then Logger.DEBUG else Logger.INFO.
Proof. by destruct shell_debug as [[|]|]. Qed.

(** X14. What a call writes to the console: [info], [warn] and [error]
    always write (one line; [error] a second one for a non-empty stack),
    [debug] writes only when [SHELL_DEBUG] was set to a non-empty value at
    load time, and constructing a Logger writes only the warning for a
    [metadata] whose name cannot be read while no prefix is cached. *)
Theorem Logger_lines_written shell_debug calls c :
  let st := Logger.perform_all calls (Logger.load shell_debug) in
  length (Logger.console (Logger.perform st c))
  = (length (Logger.console st)
     + Logger.lines_written (Logger.debug_mode shell_debug)
         (Logger.prefix_truthy (Logger._prefix st)) c)%nat.
Proof.
  intros st.
  assert (Logger.currentLogLevel st
          = if Logger.debug_mode shell_debug then Logger.DEBUG else Logger.INFO)
    as Hlevel.
  { unfold st. by rewrite Logger_perform_all_keeps_level, Logger_level_of_load. }
  assert (forall md, length (Logger.console (Logger._getPrefix md st).2)
            = (length (Logger.console st)
               + match md with
                 | Some (Logger.MetadataNameThrows _) =>
                     if Logger.prefix_truthy (Logger._prefix st) then 0 else 1
                 | _ => 0
                 end)%nat) as Hget.
  { intros md. unfold Logger._getPrefix, Logger.initialize_prefix, Logger.prefix_truthy.
    destruct (Logger._prefix st) as [p|]; [destruct (Logger.string_truthy p)|];
      destruct md as [[|]|]; cbn; lia. }
  clearbody st.
  destruct c as [md|m d|m|m|m e]; cbn [Logger.perform].
  - unfold Logger.constructor. rewrite Hget. by destruct md as [[|]|].
  - unfold Logger.debug. rewrite Hlevel. pose proof (Hget None) as H.
    destruct (Logger.debug_mode shell_debug); cbn; [|lia].
    destruct (Logger._getPrefix None st) as [p st']. cbn in *. lia.
  - unfold Logger.info. rewrite Hlevel. pose proof (Hget None) as H.
    destruct (Logger.debug_mode shell_debug); cbn;
      destruct (Logger._getPrefix None st) as [p st']; cbn in *; lia.
  - unfold Logger.warn. rewrite Hlevel. pose proof (Hget None) as H.
    destruct (Logger.debug_mode shell_debug); cbn;
      destruct (Logger._getPrefix None st) as [p st']; cbn in *; lia.
  - unfold Logger.error. rewrite Hlevel. pose proof (Hget None) as H.
    destruct (Logger.debug_mode shell_debug); cbn;
      destruct (Logger._getPrefix None st) as [p st']; cbn in *;
      destruct e as [|msg s [stack|]]; cbn; try lia;
      destruct (Logger.string_truthy stack); cbn; lia.
Qed.

(** * The menu row *)

(** X15. [createHorizontalButtonRow] makes one button per entry of
    [configs], in the same order and with its label; a click on the [i]-th
    button first closes the menu and then runs the action of the [i]-th
    entry, and when closing the menu raises the action is not run. *)
Theorem row_buttons_follow_configs {A} (configs : list (Ui.ButtonConfig A)) i cfg
  (tr : list (Ui.effect A)) :
  configs !! i = Some cfg ->
  exists button,
    Ui.children (Ui.box (Ui.createHorizontalButtonRow (Some configs))) !! i
    = Some button
    /\ Ui.button_label button = Ui.label cfg
    /\ Ui.clicked Ui.record_close Ui.record_action button tr
       = (Normal (), tr ++ [Ui.MenuClosed; Ui.ActionInvoked (Ui.action cfg)])
    /\ (forall e, Ui.clicked (ST_throw e) Ui.record_action button tr
                  = (Abrupt e, tr))
    /\ length (Ui.children (Ui.box (Ui.createHorizontalButtonRow (Some configs))))
       = length configs
    /\ Ui.children (Ui.box (Ui.createHorizontalButtonRow (@None (list (Ui.ButtonConfig A)))))
       = [].
Proof.
  intros Hi. exists (Ui.createButton cfg). cbn.
  split; [by rewrite list_lookup_fmap, Hi|].
  split; [done|]. split.
  - unfold Ui.clicked, Ui.record_close, Ui.record_action, ST_modify, mbind, ST_bind.
    cbn. by rewrite <- app_assoc.
  - split; [done|]. split; [by rewrite length_map|done].
Qed.

Lemma row_buttons_follow_configs_witness :
  exists button,
    Ui.children (Ui.box (Ui.createHorizontalButtonRow (Some Extension.buttonConfigs))) !! 1%nat
    = Some button
    /\ Ui.button_label button = "<-"
    /\ Ui.clicked Ui.record_close Ui.record_action button []
       = (Normal (), [Ui.MenuClosed; Ui.ActionInvoked Extension.MovePageLeft]).
Proof.
  destruct (row_buttons_follow_configs Extension.buttonConfigs 1
              (Ui.mkConfig "<-" Extension.MovePageLeft) [] eq_refl)
    as (button & H1 & H2 & H3 & _).
  exists button. repeat split; assumption.
Defined.

(** * The extension's use of PageMovers *)

Arguments Extension.id_truthy : simpl never.

Lemma mover_events_app b k calls calls' :
  mover_events b k (calls ++ calls')
  = mover_events b k calls ++ mover_events b k calls'.
Proof.
  induction calls as [|[k' c] calls IH]; [done|]. cbn.
  destruct (bool_decide (k' = k)); [|done]. destruct c; cbn; by rewrite IH.
Qed.

Lemma mover_events_fresh b k calls :
  (forall k' c, (k', c) ∈ calls -> k' <> k) -> mover_events b k calls = [].
Proof.
  induction calls as [|[k' c] calls IH]; intros Hfresh; [done|]. cbn.
  rewrite bool_decide_eq_false_2 by (eapply Hfresh; apply list_elem_of_here).
  apply IH. intros k'' c' Hin. eapply Hfresh. by apply list_elem_of_further.
Qed.

Lemma no_destroy_no_move_after l :
  forallb (fun ev => negb (is_destroy ev)) l = true ->
  no_move_after_destroy l = true.
Proof.
  induction l as [|ev l IH]; [done|]. cbn. intros H.
  apply andb_prop in H as [Hev H]. destruct ev; try done; by apply IH.
Qed.

Lemma no_move_after_destroy_snoc l ev :
  no_move_after_destroy l = true ->
  is_move ev = false \/ forallb (fun ev => negb (is_destroy ev)) l = true ->
  no_move_after_destroy (l ++ [ev]) = true.
Proof.
  induction l as [|ev' l IH]; intros Hl Hev.
  - by destruct ev.
  - destruct ev'; cbn in *;
      try (apply IH; [done|]; destruct Hev as [?|Hev]; [by left|];
           right; by destruct (andb_prop _ _ Hev));
      try (apply IH; [done|]; destruct Hev as [?|Hev]; [by left|by right]).
    destruct Hev as [Hev|Hev]; [|done].
    rewrite forallb_app. cbn. by rewrite Hl, Hev.
Qed.

Lemma method_event_is_move b m : is_move (method_event b m) = true.
Proof. by destruct m. Qed.

Lemma transition_disciplined v v' :
  mover_transition v v' -> view_disciplined v -> view_disciplined v'.
Proof.
  intros Htr (H1 & H2 & H3).
  destruct Htr as [held n calls|k n calls|k m n calls|held n calls];
    unfold view_disciplined in *; cbn in *.
  - repeat split; try done; eauto.
  - destruct (H3 (cooperative RedisplayDeferred) k eq_refl) as [Hlt _].
    repeat split; try done.
    + intros k' c Hin. apply elem_of_app in Hin as [Hin|Hin]; [by eapply H1|].
      apply list_elem_of_singleton in Hin. by inversion Hin; subst.
    + intros b k'. rewrite mover_events_app. cbn.
      destruct (bool_decide (k = k')) eqn:Hkk; [|by rewrite app_nil_r].
      apply no_move_after_destroy_snoc; [apply H2|by left].
  - destruct (H3 (cooperative RedisplayDeferred) k eq_refl) as [Hlt _].
    repeat split; try done.
    + intros k' c Hin. apply elem_of_app in Hin as [Hin|Hin]; [by eapply H1|].
      apply list_elem_of_singleton in Hin. by inversion Hin; subst.
    + intros b k'. rewrite mover_events_app. cbn.
      destruct (bool_decide (k = k')) eqn:Hkk; [|by rewrite app_nil_r].
      apply bool_decide_eq_true_1 in Hkk. subst k'.
      apply no_move_after_destroy_snoc; [apply H2|right].
      by destruct (H3 b k eq_refl).
    + by injection H as <-.
    + injection H as <-. rewrite mover_events_app, forallb_app. cbn.
      rewrite bool_decide_eq_true_2 by done.
      destruct (H3 b k eq_refl) as [_ Hnone]. rewrite Hnone. by destruct m.
  - assert (forall b, mover_events b n calls = []) as Hfresh.
    { intros b. apply mover_events_fresh. intros k' c Hin ->.
      specialize (H1 _ _ Hin). lia. }
    repeat split.
    + intros k' c Hin. apply elem_of_app in Hin as [Hin|Hin];
        [specialize (H1 _ _ Hin); lia|].
      apply list_elem_of_singleton in Hin. inversion Hin; subst. lia.
    + intros b k'. rewrite mover_events_app. cbn.
      destruct (bool_decide _); rewrite app_nil_r; apply H2.
    + injection H as <-. lia.
    + injection H as <-. rewrite mover_events_app. cbn.
      rewrite bool_decide_eq_true_2 by done. by rewrite app_nil_r, Hfresh.
Qed.

Lemma transitions_disciplined v v' :
  rtc mover_transition v v' -> view_disciplined v -> view_disciplined v'.
Proof.
  induction 1 as [|v1 v2 v3 Hstep _ IH]; [done|].
  intros Hv. by apply IH, (transition_disciplined v1).
Qed.

Ltac ext_eval :=
  lazy beta iota zeta delta
    [Extension.handle Extension.step Extension.enable Extension.disable
     Extension._onOverviewShown
     Extension._onOverviewHidden Extension.shown_idle_callback
     Extension._initializeAppDisplayListeners Extension.click Ui.clicked
     Extension.invoke Extension.menu_close_if_any Extension.menu_open
     Extension.menu_addMenuItem Extension.indicators_pressed
     Extension.appDisplay_pressed Extension.dispatch_idle Extension.swallow
     Extension.set_pageIndicators Extension.set_appDisplay
     Extension.set_pageMover Extension.set_rightClickSignalId
     Extension.set_rightClickAppDisplaySignalId
     Extension.set_overviewShowSignalId Extension.set_overviewHideSignalId
     Extension.set_menuManager Extension.set_menu Extension.log
     Extension.overview_connect Extension.overview_disconnect
     Extension.actor_connect Extension.actor_disconnect
     Extension.set_reactive Extension.GLib_idle_add Extension.uiGroup_add_menu
     Extension.menu_actor_destroyed Extension.record_mover_call
     Extension.new_PageMover Extension.this Extension.desktop
     Extension.update_this Extension.update_desktop
     Extension.find_appDisplay
     Extension._pageIndicators Extension._appDisplay Extension._pageMover
     Extension._rightClickSignalId Extension._rightClickAppDisplaySignalId
     Extension._overviewShowSignalId Extension._overviewHideSignalId
     Extension._menuManager Extension._menu
     Extension.overview_handlers Extension.actor_handlers
     Extension.next_signal_id Extension.idle_queue Extension.reactive_actors
     Extension.live_menus Extension.movers_created Extension.mover_calls
     Extension.messages Extension.isOpen Extension.sourceActor Extension.items
     Extension.private_controls Extension.controls_appDisplay
     Extension.dash_appDisplay Extension.appDisplay_pageIndicators
     Extension.controls_pageIndicators
     mover_view mbind ST_bind mret ST_ret ST_throw fst snd andb orb negb].

Ltac goal_case :=
  match goal with
  | |- context [match ?x with _ => _ end] => is_var x; destruct x
  | |- context [Extension.id_truthy ?i] =>
      destruct (Extension.id_truthy i) eqn:?
  | |- context [Extension.connected ?i ?hs] =>
      destruct (Extension.connected i hs) eqn:?
  | |- context [bool_decide ?P] => destruct (bool_decide P) eqn:?
  | |- context [?a =? ?b] => destruct (a =? b) eqn:?
  | |- context [match ?l !! ?i with _ => _ end] => destruct (l !! i) eqn:?
  end.

Ltac ext_run := ext_eval; repeat (goal_case; ext_eval).

Ltac solve_transitions :=
  first [ apply rtc_refl
        | apply rtc_once; constructor
        | eapply rtc_l; [constructor|apply rtc_once; constructor] ].

Lemma onOverviewShown_transitions st :
  rtc mover_transition (mover_view st) (mover_view (Extension._onOverviewShown st).2).
Proof. destruct st as [[] []]. ext_run; solve_transitions. Qed.

Lemma onOverviewHidden_transitions st :
  rtc mover_transition (mover_view st) (mover_view (Extension._onOverviewHidden st).2).
Proof. destruct st as [[] []]. ext_run; solve_transitions. Qed.

Lemma enable_transitions st :
  rtc mover_transition (mover_view st) (mover_view (Extension.enable st).2).
Proof. destruct st as [[] []]. ext_run; solve_transitions. Qed.

Lemma disable_transitions st :
  rtc mover_transition (mover_view st) (mover_view (Extension.disable st).2).
Proof. destruct st as [[] []]. ext_run; solve_transitions. Qed.

Lemma dispatch_idle_transitions lk st :
  rtc mover_transition (mover_view st) (mover_view (Extension.dispatch_idle lk st).2).
Proof. destruct st as [[] []]. ext_run; solve_transitions. Qed.

Lemma click_transitions i st :
  rtc mover_transition (mover_view st) (mover_view (Extension.click i st).2).
Proof. destruct st as [[] []]. ext_run; solve_transitions. Qed.

Lemma press_callbacks_keep_view button st :
  mover_view (Extension.indicators_pressed button st).2 = mover_view st
  /\ mover_view (Extension.appDisplay_pressed button st).2 = mover_view st.
Proof. destruct st as [[] []]. split; by ext_run. Qed.

Lemma emit_overview_cons s id s' snapshot st :
  Extension.emit_overview s ((id, s') :: snapshot) st
  = Extension.emit_overview s snapshot
      (if Extension.connected id (Extension.overview_handlers st.2) then
         match s, s' with
         | Extension.Showing, Extension.Showing => (Extension._onOverviewShown st).2
         | Extension.Hiding, Extension.Hiding => (Extension._onOverviewHidden st).2
         | _, _ => st
         end
       else st).
Proof.
  unfold Extension.emit_overview at 1; fold Extension.emit_overview.
  unfold Extension.desktop, Extension.swallow, mbind, ST_bind, mret, ST_ret.
  simpl.
  destruct (Extension.connected _ _); [|done].
  destruct s, s'; try done.
  - by destruct (Extension._onOverviewShown st).
  - by destruct (Extension._onOverviewHidden st).
Qed.

Lemma emit_overview_transitions s snapshot st :
  rtc mover_transition (mover_view st)
    (mover_view (Extension.emit_overview s snapshot st).2).
Proof.
  revert st. induction snapshot as [|[id s'] snapshot IH]; intros st;
    [apply rtc_refl|].
  rewrite emit_overview_cons.
  destruct (Extension.connected _ _); [|apply IH].
  destruct s, s'; try apply IH.
  - etrans; [apply onOverviewShown_transitions|apply IH].
  - etrans; [apply onOverviewHidden_transitions|apply IH].
Qed.

Lemma emit_press_keeps_view actor button snapshot st :
  mover_view (Extension.emit_press actor button snapshot st).2 = mover_view st.
Proof.
  revert st. induction snapshot as [|[id [actor' cb]] snapshot IH]; intros st;
    [done|].
  simpl. destruct (_ && _); [|apply IH].
  destruct (press_callbacks_keep_view button st) as [Hi Ha].
  destruct cb.
  - destruct (Extension.indicators_pressed button st) as [[[]|e] st'];
      simpl in *; rewrite ?IH; done.
  - destruct (Extension.appDisplay_pressed button st) as [[[]|e] st'];
      simpl in *; rewrite ?IH; done.
Qed.

Lemma handle_transitions ev st :
  rtc mover_transition (mover_view st) (mover_view (Extension.step st ev)).
Proof.
  unfold Extension.step. destruct ev as [| | | |lk|i|actor button]; simpl.
  - apply enable_transitions.
  - apply disable_transitions.
  - apply emit_overview_transitions.
  - apply emit_overview_transitions.
  - apply dispatch_idle_transitions.
  - apply click_transitions.
  - rewrite emit_press_keeps_view. apply rtc_refl.
Qed.

Lemma run_transitions trace st :
  rtc mover_transition (mover_view st) (mover_view (Extension.run trace st)).
Proof.
  revert st. induction trace as [|ev trace IH]; intros st; [apply rtc_refl|].
  etrans; [apply (handle_transitions ev)|apply IH].
Qed.

(** X16. Whatever the shell does with the extension (enabling and
    disabling in any order, overview signals, idle dispatches, clicks and
    button presses), no PageMover is asked to move after the extension
    called its [destroy()], and the PageMover held in [_pageMover] has not
    been destroyed. *)
Theorem extension_never_moves_a_destroyed_PageMover trace b k :
  let st := Extension.run trace Extension.constructed in
  no_move_after_destroy (mover_events b k (Extension.mover_calls st.2)) = true
  /\ (Extension._pageMover st.1 = Some k ->
      forallb (fun ev => negb (is_destroy ev))
        (mover_events b k (Extension.mover_calls st.2)) = true).
Proof.
  intros st.
  assert (view_disciplined (mover_view st)) as (_ & Hlife & Hheld).
  { apply (transitions_disciplined (mover_view Extension.constructed));
      [apply run_transitions|].
    unfold view_disciplined. cbn. repeat split; try done.
    intros k' c Hin. by apply elem_of_nil in Hin. }
  split; [apply Hlife|]. intros Hk. by destruct (Hheld b k Hk).
Qed.

Lemma extension_never_moves_a_destroyed_PageMover_witness :
  let st :=
    Extension.run
      [Extension.Enable; Extension.OverviewShowing;
       Extension.Idle (Extension.mkLookup None (Some 7%nat) None None None);
       Extension.Click 1; Extension.OverviewHiding; Extension.OverviewShowing;
       Extension.Idle (Extension.mkLookup None (Some 7%nat) None None None);
       Extension.Click 3]
      Extension.constructed in
  no_move_after_destroy
    (mover_events (cooperative RedisplayEmits) 1 (Extension.mover_calls st.2))
  = true
  /\ forallb (fun ev => negb (is_destroy ev))
       (mover_events (cooperative RedisplayEmits) 1 (Extension.mover_calls st.2))
     = true.
Proof.
  intros st.
  destruct (extension_never_moves_a_destroyed_PageMover
              [Extension.Enable; Extension.OverviewShowing;
               Extension.Idle (Extension.mkLookup None (Some 7%nat) None None None);
               Extension.Click 1; Extension.OverviewHiding;
               Extension.OverviewShowing;
               Extension.Idle (Extension.mkLookup None (Some 7%nat) None None None);
               Extension.Click 3]
              (cooperative RedisplayEmits) 1) as [H1 H2].
  split; [exact H1|]. apply H2. vm_compute. reflexivity.
Defined.

(** * Orderly sessions *)

Lemma id_truthy_nonzero id : id <> 0 -> Extension.id_truthy (Some id) = true.
Proof. intros H. unfold Extension.id_truthy. by destruct (Z.eqb_spec id 0). Qed.

Lemma undestroyed_app calls calls' acc :
  undestroyed (calls ++ calls') acc = undestroyed calls' (undestroyed calls acc).
Proof.
  revert acc. induction calls as [|[k c] calls IH]; intros acc; [done|].
  destruct c; cbn; apply IH.
Qed.

Lemma extension_undone_disabled_step ev st :
  match ev with Extension.Enable => False | _ => True end ->
  0 < Extension.next_signal_id st.2 ->
  extension_undone st ->
  0 < Extension.next_signal_id (Extension.step st ev).2
  /\ extension_undone (Extension.step st ev).
Proof.
  destruct st as [x [oh ah next iq ra lm mc calls msgs]].
  intros Hev Hnext (Hoh & Hah & Hiq & Hlm & Hund & Hx). simpl in *. subst.
  unfold extension_undone, Extension.step.
  destruct ev as [| | | |lk|i|actor button]; try done;
    ext_run; lazy beta iota zeta delta [Extension.emit_overview Extension.emit_press];
    ext_run; by repeat split.
Qed.

Lemma connected_first {A} a (x : A) hs :
  Extension.connected a ((a, x) :: hs) = true.
Proof. apply bool_decide_eq_true_2. set_solver. Qed.

Lemma connected_second {A} a b (x y : A) hs :
  Extension.connected b ((a, x) :: (b, y) :: hs) = true.
Proof. apply bool_decide_eq_true_2. set_solver. Qed.

Lemma connected_nil {A} a : Extension.connected a (@nil (Z * A)) = false.
Proof. apply bool_decide_eq_false_2. set_solver. Qed.

Lemma without_handler_first {A} a (x : A) hs :
  a ∉ hs.*1 ->
  Extension.without_handler a ((a, x) :: hs) = hs.
Proof.
  intros H. unfold Extension.without_handler.
  rewrite filter_cons_False; [|simpl; tauto].
  induction hs as [|[b y] hs IH]; [done|].
  rewrite filter_cons_True; [|simpl; set_solver].
  f_equal. apply IH. set_solver.
Qed.

Lemma without_actor_handler_first a x (c : Extension.press_callback) hs :
  a ∉ hs.*1 ->
  Extension.without_actor_handler x a ((a, (x, c)) :: hs) = hs.
Proof.
  intros H. unfold Extension.without_actor_handler.
  rewrite filter_cons_False; [|simpl; tauto].
  induction hs as [|[b y] hs IH]; [done|].
  rewrite filter_cons_True; [|simpl; set_solver].
  f_equal. apply IH. set_solver.
Qed.

Ltac known_case :=
  match goal with
  | H : ?i <> 0 |- context [Extension.id_truthy (Some ?i)] =>
      rewrite (id_truthy_nonzero i H)
  | |- context [Extension.connected ?a ((?a, ?x) :: ?hs)] =>
      rewrite (connected_first a x hs)
  | |- context [Extension.connected ?b ((?a, ?x) :: (?b, ?y) :: ?hs)] =>
      rewrite (connected_second a b x y hs)
  | |- context [Extension.connected ?a []] =>
      rewrite (connected_nil a)
  | |- context [Extension.without_handler ?a ((?a, ?x) :: ?hs)] =>
      rewrite (without_handler_first a x hs) by set_solver
  | |- context [Extension.without_actor_handler ?p ?a ((?a, (?p, ?x)) :: ?hs)] =>
      rewrite (without_actor_handler_first a p x hs) by set_solver
  | |- context [[] ++ ?l] => change ([] ++ l) with l
  | |- context [(?x :: ?l) ++ ?l'] => change ((x :: l) ++ l') with (x :: (l ++ l'))
  end.

Ltac session_run :=
  ext_eval;
  lazy beta iota zeta delta [Extension.emit_overview Extension.emit_press];
  ext_eval;
  repeat (first [known_case | goal_case]; ext_eval).

Lemma enable_from_nothing st :
  0 < Extension.next_signal_id st.2 ->
  extension_undone st ->
  session_invariant true false (Extension.step st Extension.Enable).
Proof.
  destruct st as [x [oh ah next iq ra lm mc calls msgs]].
  intros Hnext (Hoh & Hah & Hiq & Hlm & Hund & Hx). simpl in *. subst.
  unfold session_invariant, while_enabled, display_unknown, Extension.step.
  session_run.
  split; [lia|]. split; [|split; [done|split; [lia|]]].
  - eexists _, _, _. repeat split; try done; lia.
  - left. by repeat split.
Qed.

Lemma undestroyed_destroyed calls k :
  undestroyed calls [] = [k] ->
  undestroyed (calls ++ [(k, Extension.Destroy)]) [] = [].
Proof.
  intros H. rewrite undestroyed_app, H. cbn.
  by case_decide.
Qed.

Lemma undestroyed_constructed calls k :
  undestroyed calls [] = [] ->
  undestroyed (calls ++ [(k, Extension.Construct)]) [] = [k].
Proof. intros H. by rewrite undestroyed_app, H. Qed.

Lemma undestroyed_method calls k m acc :
  undestroyed (calls ++ [(k, Extension.Method m)]) acc = undestroyed calls acc.
Proof. by rewrite undestroyed_app. Qed.

Lemma orderly_end_cons en p ev trace :
  orderly_end en p (ev :: trace)
  = match orderly_end en p [ev] with
    | Some (en', p') => orderly_end en' p' trace
    | None => None
    end.
Proof. by destruct ev, en, p. Qed.

Ltac session_finish :=
  repeat match goal with
         | |- _ /\ _ => split
         | |- exists _, _ => eexists
         | |- undestroyed (_ ++ [(_, Extension.Destroy)]) [] = [] =>
             by apply undestroyed_destroyed
         | |- undestroyed (_ ++ [(_, Extension.Construct)]) [] = [_] =>
             by apply undestroyed_constructed
         | |- undestroyed (_ ++ [(_, Extension.Method _)]) _ = _ =>
             by rewrite undestroyed_method
         | |- _ => first [done | lia]
         end.

Lemma enabled_step p ev st en' p' :
  session_invariant true p st ->
  orderly_end true p [ev] = Some (en', p') ->
  session_invariant en' p' (Extension.step st ev).
Proof.
  intros [Hnext ((a & b & m & Ha & Hb & Ha0 & Hb0 & Hab & Hoh & Hm & Hitems & Hmm)
                 & Hlm & Hiq & Hd)] Hord.
  destruct st as [[pi ad pm rc rca os ohi mm menu]
                  [oh ah next iq ra lm mc calls msgs]].
  destruct m as [isOpen sourceActor items].
  simpl in *; subst.
  destruct Hd as [(? & ? & ? & ? & ? & ? & Hund)
                 |(d & k & pi' & i1 & i2 & ? & ? & ? & ? & ? & Hi1 & Hi2 & Hi12
                   & ? & Hund & ?)]; simpl in *; subst.
  - destruct ev as [| | | |lk|i|actor button]; simpl in Hord;
      try destruct p; simplify_eq;
      unfold session_invariant, while_enabled, extension_undone,
        display_unknown, Extension.step; session_run.
    all: try (by session_finish).
    all: try (split; [lia|]; split; [by session_finish|]; split; [done|]; split; [lia|]).
    all: try (left; by session_finish).
    all: try (right; unfold display_known; ext_eval; by session_finish).
  - destruct ev as [| | | |lk|i|actor button]; simpl in Hord;
      try destruct p; simplify_eq;
      unfold session_invariant, while_enabled, extension_undone,
        display_unknown, Extension.step; session_run.
    all: try (by session_finish).
    all: try (split; [lia|]; split; [by session_finish|]; split; [done|]; split; [lia|]).
    all: try (left; by session_finish).
    all: try (right; unfold display_known; ext_eval; by session_finish).
Qed.

Lemma session_step en p ev st en' p' :
  session_invariant en p st ->
  orderly_end en p [ev] = Some (en', p') ->
  session_invariant en' p' (Extension.step st ev).
Proof.
  destruct en; [apply enabled_step|].
  intros [Hnext Hst] Hord.
  destruct ev; simpl in Hord; try destruct p; simplify_eq;
    try (by apply enable_from_nothing);
    by apply extension_undone_disabled_step.
Qed.

Lemma session_run_invariant trace : forall en p st en' p',
  session_invariant en p st ->
  orderly_end en p trace = Some (en', p') ->
  session_invariant en' p' (Extension.run trace st).
Proof.
  induction trace as [|ev trace IH]; intros en p st en' p' Hst Hord.
  - simpl in Hord. by simplify_eq.
  - rewrite orderly_end_cons in Hord.
    destruct (orderly_end en p [ev]) as [[en1 p1]|] eqn:Hev; [|done].
    apply (IH en1 p1); [|done]. by apply (session_step en p).
Qed.

Lemma constructed_invariant : session_invariant false false Extension.constructed.
Proof. by repeat split. Qed.

(** X17. In an orderly session (see [orderly_end]) that ends disabled, the
    extension has undone what it set up itself: its 'showing' and 'hiding'
    callbacks and its two 'button-press-event' callbacks are disconnected,
    no idle callback of [_onOverviewShown] is queued, its menu is
    destroyed, its fields are cleared, and [destroy()] has been called on
    every PageMover it constructed. *)
Theorem disable_undoes_what_the_extension_set_up trace pending :
  orderly_end false false trace = Some (false, pending) ->
  let st := Extension.run trace Extension.constructed in
  Extension.overview_handlers st.2 = []
  /\ Extension.actor_handlers st.2 = []
  /\ Extension.idle_queue st.2 = 0%nat
  /\ Extension.live_menus st.2 = 0%nat
  /\ undestroyed (Extension.mover_calls st.2) [] = []
  /\ st.1 = Extension.mkFields None None None None None None None false None.
Proof.
  intros Hord st.
  destruct (session_run_invariant trace false false Extension.constructed
              false pending constructed_invariant Hord) as [_ Hundone].
  exact Hundone.
Qed.

Lemma disable_undoes_what_the_extension_set_up_witness :
  let st :=
    Extension.run
      [Extension.Enable; Extension.OverviewShowing;
       Extension.Idle (Extension.mkLookup None (Some 7%nat) None None None);
       Extension.Click 0; Extension.Disable]
      Extension.constructed in
  Extension.overview_handlers st.2 = []
  /\ Extension.actor_handlers st.2 = []
  /\ Extension.idle_queue st.2 = 0%nat
  /\ Extension.live_menus st.2 = 0%nat
  /\ undestroyed (Extension.mover_calls st.2) [] = []
  /\ st.1 = Extension.mkFields None None None None None None None false None.
Proof.
  apply (disable_undoes_what_the_extension_set_up _ false).
  vm_compute. reflexivity.
Defined.

(** X18. In an orderly session that ends enabled, the PageMover held in
    [_pageMover] is the only one [destroy()] has not been called on, it is
    held exactly when the AppDisplay is known, the two overview callbacks
    of the extension are connected, its two press callbacks are connected
    exactly when a PageMover is held, and at most one idle callback of
    [_onOverviewShown] is queued. *)
Theorem enabled_session_holds_the_only_undestroyed_PageMover trace pending :
  orderly_end false false trace = Some (true, pending) ->
  let st := Extension.run trace Extension.constructed in
  undestroyed (Extension.mover_calls st.2) []
  = match Extension._pageMover st.1 with Some k => [k] | None => [] end
  /\ (Extension._pageMover st.1 = None <-> Extension._appDisplay st.1 = None)
  /\ length (Extension.overview_handlers st.2) = 2%nat
  /\ length (Extension.actor_handlers st.2)
     = match Extension._pageMover st.1 with Some _ => 2%nat | None => 0%nat end
  /\ (Extension.idle_queue st.2 <= 1)%nat.
Proof.
  intros Hord st.
  destruct (session_run_invariant trace false false Extension.constructed
              true pending constructed_invariant Hord)
    as (_ & (a & b & m & _ & _ & _ & _ & _ & Hoh & _) & _ & Hiq & Hd).
  fold st in Hoh, Hiq, Hd. rewrite Hoh.
  assert (Extension.idle_queue st.2 <= 1)%nat by (destruct pending; lia).
  destruct Hd as [(Had & Hpm & _ & _ & _ & Hah & Hund)
                 |(d & k & pi & i1 & i2 & Had & Hpm & _ & _ & _ & _ & _ & _
                   & Hah & Hund & _)];
    rewrite Hpm, Had, Hah, Hund; by repeat split.
Qed.

Lemma enabled_session_holds_the_only_undestroyed_PageMover_witness :
  let st :=
    Extension.run
      [Extension.Enable; Extension.OverviewShowing;
       Extension.Idle (Extension.mkLookup None (Some 7%nat) None None None);
       Extension.Click 0; Extension.OverviewHiding; Extension.OverviewShowing]
      Extension.constructed in
  undestroyed (Extension.mover_calls st.2) []
  = match Extension._pageMover st.1 with Some k => [k] | None => [] end
  /\ (Extension._pageMover st.1 = None <-> Extension._appDisplay st.1 = None)
  /\ length (Extension.overview_handlers st.2) = 2%nat
  /\ length (Extension.actor_handlers st.2)
     = match Extension._pageMover st.1 with Some _ => 2%nat | None => 0%nat end
  /\ (Extension.idle_queue st.2 <= 1)%nat.
Proof.
  apply (enabled_session_holds_the_only_undestroyed_PageMover _ true).
  vm_compute. reflexivity.
Defined.

(** X19. [disable()] does not remove the idle source [_onOverviewShown]
    queued: when that callback runs on the disabled extension and finds
    the AppDisplay, it stores it, constructs a PageMover, and
    [_initializeAppDisplayListeners] raises a TypeError at
    [this._menu.sourceActor]; no press callback gets connected, and the
    next [enable()] overwrites [_pageMover] without anyone having called
    [destroy()] on that PageMover. *)
Theorem idle_callback_after_disable_leaks_a_PageMover st lk d n :
  st.1 = Extension.mkFields None None None None None None None false None ->
  Extension.idle_queue st.2 = S n ->
  Extension.find_appDisplay lk = Some d ->
  let k := Extension.movers_created st.2 in
  let after := Extension.handle (Extension.Idle lk) st in
  after.1 = Abrupt TypeError
  /\ Extension._appDisplay after.2.1 = Some d
  /\ Extension._pageMover after.2.1 = Some k
  /\ Extension._rightClickSignalId after.2.1 = None
  /\ Extension.actor_handlers after.2.2 = Extension.actor_handlers st.2
  /\ Extension.mover_calls after.2.2
     = Extension.mover_calls st.2 ++ [(k, Extension.Construct)]
  /\ Extension._pageMover (Extension.step after.2 Extension.Enable).1 = None
  /\ Extension.mover_calls (Extension.step after.2 Extension.Enable).2
     = Extension.mover_calls st.2 ++ [(k, Extension.Construct)].
Proof.
  destruct st as [x [oh ah next iq ra lm mc calls msgs]].
  intros Hx Hiq Hlk k after. simpl in *. subst. subst k after.
  unfold Extension.handle, Extension.dispatch_idle, Extension.shown_idle_callback.
  rewrite Hlk. session_run; by repeat split.
Qed.

Lemma idle_callback_after_disable_witness :
  let lk := Extension.mkLookup None (Some 7%nat) None None None in
  let st :=
    Extension.run
      [Extension.Enable; Extension.OverviewShowing; Extension.Disable]
      Extension.constructed in
  let after := Extension.handle (Extension.Idle lk) st in
  after.1 = Abrupt TypeError
  /\ Extension._appDisplay after.2.1 = Some 7%nat
  /\ Extension._pageMover after.2.1 = Some 0%nat
  /\ Extension._rightClickSignalId after.2.1 = None
  /\ Extension.actor_handlers after.2.2 = []
  /\ Extension.mover_calls after.2.2 = [(0%nat, Extension.Construct)]
  /\ Extension._pageMover (Extension.step after.2 Extension.Enable).1 = None
  /\ Extension.mover_calls (Extension.step after.2 Extension.Enable).2
     = [(0%nat, Extension.Construct)].
Proof.
  apply (idle_callback_after_disable_leaks_a_PageMover
           (Extension.run
              [Extension.Enable; Extension.OverviewShowing; Extension.Disable]
              Extension.constructed)
           (Extension.mkLookup None (Some 7%nat) None None None) 7%nat 0%nat);
    vm_compute; reflexivity.
Defined.

(** X20. While the extension is enabled in an orderly session, a click on
    the [i]-th button of the menu closes the menu and calls the method of
    the [i]-th entry of [buttonConfigs] on the PageMover held, once; when
    none is held it calls nothing. *)
Theorem menu_button_calls_the_held_PageMover trace pending i cfg :
  orderly_end false false trace = Some (true, pending) ->
  Extension.buttonConfigs !! i = Some cfg ->
  let st := Extension.run trace Extension.constructed in
  let after := Extension.step st (Extension.Click i) in
  Extension.mover_calls after.2
  = Extension.mover_calls st.2
    ++ match Extension._pageMover st.1 with
       | Some k => [(k, Extension.Method (Ui.action cfg))]
       | None => []
       end
  /\ (exists m, Extension._menu after.1 = Some m /\ Extension.isOpen m = false)
  /\ Extension._pageMover after.1 = Extension._pageMover st.1.
Proof.
  intros Hord Hcfg st after.
  destruct (session_run_invariant trace false false Extension.constructed
              true pending constructed_invariant Hord)
    as (_ & (a & b & m & _ & _ & _ & _ & _ & _ & Hm & Hitems & _) & _).
  fold st in Hm, Hitems. subst after.
  destruct st as [[pi ad pm rc rca os ohi mm menu]
                  [oh ah next iq ra lm mc calls msgs]].
  destruct m as [isOpen sourceActor items]. simpl in Hm, Hitems. subst.
  assert (exists button,
    Ui.children (Ui.box (Ui.createHorizontalButtonRow
                           (Some Extension.buttonConfigs))) !! i = Some button
    /\ Ui.clicked_config button = cfg) as (button & Hbutton & Hclicked).
  { destruct i as [|[|[|[|i]]]]; simplify_eq/=; eauto. }
  unfold Extension.step, Extension.handle, Extension.click.
  ext_eval. rewrite Hbutton. ext_eval. rewrite Hclicked.
  destruct pm; ext_eval; rewrite ?app_nil_r; repeat split; eauto.
Qed.

Lemma menu_button_calls_the_held_PageMover_witness :
  let st :=
    Extension.run
      [Extension.Enable; Extension.OverviewShowing;
       Extension.Idle (Extension.mkLookup None (Some 7%nat) None None None);
       Extension.Press 7 3]
      Extension.constructed in
  let after := Extension.step st (Extension.Click 2) in
  Extension.mover_calls after.2
  = Extension.mover_calls st.2
    ++ match Extension._pageMover st.1 with
       | Some k => [(k, Extension.Method Extension.MovePageRight)]
       | None => []
       end
  /\ (exists m, Extension._menu after.1 = Some m /\ Extension.isOpen m = false)
  /\ Extension._pageMover after.1 = Extension._pageMover st.1.
Proof.
  apply (menu_button_calls_the_held_PageMover _ false 2
           (Ui.mkConfig "->" Extension.MovePageRight));
    vm_compute; reflexivity.
Defined.
